(** * Loom: tables, fields, expression resolution and query generation

    A shallow embedding of [loom/fields.py], [loom/tables.py] and
    [loom/exceptions.py].  Python objects live in a store indexed by
    references; a method that assigns becomes a function from store to
    store and result, a method that only reads becomes a function of the
    store, and a raised exception becomes the [Raise] branch of a result.
    The library functions the two modules call ([inspect.cleandoc],
    [string.Formatter], [str.format]) are embedded as far as tables,
    fields and strings can reach them.  The helpers of
    [loom/transformations.py] and [BaseTable.describe] are not part of
    the development. *)

From Stdlib Require Import Ascii String.
From stdpp Require Import base strings list gmap.

Local Open Scope string_scope.

(** ** Python strings

    A string stands for the UTF-8 bytes of a Python string: every
    character the code and the format mini-language look for is ASCII,
    and a byte above 127 is part of a character outside ASCII. *)

Definition nl : ascii := "010"%char.
Definition tab : ascii := "009"%char.
Definition cr : ascii := "013"%char.
Definition NL : string := String nl "".

Definition snoc (s : string) (c : ascii) : string := s +:+ String c "".

(** [sep.join(l)] *)
Fixpoint join (sep : string) (l : list string) : string :=
  match l with
  | [] => ""
  | x :: l' => match l' with [] => x | _ => x +:+ sep +:+ join sep l' end
  end.

(** [n * " "] *)
Fixpoint spaces (n : nat) : string :=
  match n with O => "" | S n' => String " " (spaces n') end.

(** [s.replace(old, new)] for a pattern [old] of one character, the only
    form the sources use ([statement.replace("\n", ...)]). *)
Fixpoint replace (old : ascii) (new : string) (s : string) : string :=
  match s with
  | "" => ""
  | String c s' =>
      if Ascii.eqb c old then new +:+ replace old new s'
      else String c (replace old new s')
  end.

(** [s.split("\n")]: never empty, one more piece than separators. *)
Fixpoint split_lines (s : string) : list string :=
  match s with
  | "" => [""]
  | String c s' =>
      if Ascii.eqb c nl then "" :: split_lines s'
      else match split_lines s' with
           | [] => [String c ""]
           | l :: ls => String c l :: ls
           end
  end.

(** [s.expandtabs()]: tab stops every 8 columns, the column restarts
    after a line feed or carriage return. *)
Fixpoint expandtabs_from (col : nat) (s : string) : string :=
  match s with
  | "" => ""
  | String c s' =>
      if Ascii.eqb c tab then
        let n := 8 - col `mod` 8 in
        spaces n +:+ expandtabs_from 0 s'
      else if Ascii.eqb c nl || Ascii.eqb c cr then
        String c (expandtabs_from 0 s')
      else String c (expandtabs_from (S col) s')
  end.

Definition expandtabs (s : string) : string := expandtabs_from 0 s.

(** [s.lstrip(" ")], as [cleandoc] strips a line; the template of
    [get_query] holds no other white space than spaces and line feeds. *)
Fixpoint lstrip (s : string) : string :=
  match s with
  | String c s' => if Ascii.eqb c " " then lstrip s' else s
  | "" => ""
  end.

(** [s[n:]] *)
Fixpoint drop_chars (n : nat) (s : string) : string :=
  match n, s with
  | O, _ => s
  | S n', String _ s' => drop_chars n' s'
  | S _, "" => ""
  end.

Definition is_empty (s : string) : bool :=
  match s with "" => true | _ => false end.

(** ** [inspect.cleandoc] *)

(** The margin loop: the least indentation of the non-blank lines after
    the first; [None] stands for [sys.maxsize]. *)
Fixpoint margin_of (lines : list string) : option nat :=
  match lines with
  | [] => None
  | line :: rest =>
      let content := String.length (lstrip line) in
      let m := margin_of rest in
      if Nat.eqb content 0 then m
      else
        let indent := String.length line - content in
        match m with
        | None => Some indent
        | Some k => Some (Nat.min indent k)
        end
  end.

(** [while lines and not lines[0]: lines.pop(0)] *)
Fixpoint drop_leading_blank (lines : list string) : list string :=
  match lines with
  | l :: rest => if is_empty l then drop_leading_blank rest else lines
  | [] => []
  end.

(** [while lines and not lines[-1]: lines.pop()] *)
Definition drop_trailing_blank (lines : list string) : list string :=
  reverse (drop_leading_blank (reverse lines)).

Definition cleandoc (doc : string) : string :=
  match split_lines (expandtabs doc) with
  | [] => ""
  | first :: others =>
      let others' :=
        match margin_of others with
        | None => others
        | Some m => map (drop_chars m) others
        end in
      let lines := lstrip first :: others' in
      join NL (drop_leading_blank (drop_trailing_blank lines))
  end.

(** ** Objects, exceptions and results *)

(** References into the store: the identity of a table or field object. *)
Abbreviation tref := nat (only parsing).
Abbreviation fref := nat (only parsing).

(** The Python values the format mini-language meets here: strings,
    table objects and field objects. *)
Inductive pyval :=
  | VStr (s : string)
  | VTable (t : tref)
  | VField (f : fref).

Global Instance pyval_eq_dec : EqDecision pyval.
Proof. solve_decision. Defined.

Definition pyval_encode (v : pyval) : string + (nat + nat) :=
  match v with
  | VStr s => inl s
  | VTable t => inr (inl t)
  | VField f => inr (inr f)
  end.

Definition pyval_decode (x : string + (nat + nat)) : pyval :=
  match x with
  | inl s => VStr s
  | inr (inl t) => VTable t
  | inr (inr f) => VField f
  end.

Global Instance pyval_countable : Countable pyval.
Proof.
  apply (inj_countable' pyval_encode pyval_decode).
  by intros [].
Defined.

(** The exceptions of [loom/exceptions.py], the built-in ones the code
    raises or lets escape, and three outcomes of the model itself:
    [Unmodelled] marks Python behaviour this development does not follow
    (a placeholder that resolves to a method, a dict or a set, a format
    specification), [NoSuchObject] a reference that was never allocated
    (no Python program can hold one), [OutOfFuel] a recursion that used
    up its depth budget. *)
Inductive exn :=
  | DuplicatedFieldException (table : tref) (field : fref)
  | UndefinedFieldException (table : tref) (field : string)
  | UnregisteredSourceException (table : tref) (source : string)
  | NoTableContextSetException (field : string)
  | RuntimeError
  | KeyError (key : string)
  | IndexError
  | ValueError (msg : string)
  | AttributeError
  | TypeError
  | AssertionError
  | Unmodelled
  | NoSuchObject
  | OutOfFuel.

Inductive result (A : Type) :=
  | Ok (a : A)
  | Raise (e : exn).
Arguments Ok {A} a.
Arguments Raise {A} e.

Global Instance result_bind : MBind result :=
  fun A B f r => match r with Ok a => f a | Raise e => Raise e end.
Global Instance result_ret : MRet result := fun A a => Ok a.

Definition of_option {A} (o : option A) (e : exn) : result A :=
  match o with Some a => Ok a | None => Raise e end.

(** ** The format mini-language ([string.Formatter], [str.format])

    [formatter_parser] follows CPython's markup iterator: literal text
    with [{{] and [}}] escapes, and replacement fields
    [{name!conversion:spec}].  The iterator is lazy in Python; here it
    returns the items up to the first error together with that error,
    and every consumer handles the items in order before it looks at the
    error. *)

Record repl_field := ReplField {
  rf_name : string;
  rf_spec : string;
  rf_conversion : option ascii }.

(** One tuple of [Formatter.parse]: the literal text and the field that
    follows it, if any. *)
Definition markup : Type := string * option repl_field.

Definition parsed (A : Type) : Type := list A * option exn.

Definition emit {A} (x : A) (p : parsed A) : parsed A := (x :: p.1, p.2).
Definition stop {A} (e : exn) : parsed A := ([], Some e).

Inductive parse_mode :=
  | InLiteral (lit : string)
  | InName (lit name : string)
  | InBracket (lit name : string)
  | InSpec (lit name : string) (conv : option ascii) (spec : string) (depth : nat).

Fixpoint formatter_parser_from (m : parse_mode) (s : string) {struct s}
  : parsed markup :=
  match m, s with
  | InLiteral lit, "" =>
      (if is_empty lit then [] else [(lit, None)], None)
  | InLiteral lit, String c rest =>
      if Ascii.eqb c "{" then
        match rest with
        | "" => stop (ValueError "Single '{' encountered in format string")
        | String c' rest' =>
            if Ascii.eqb c' "{"
            then emit (snoc lit "{", None) (formatter_parser_from (InLiteral "") rest')
            else formatter_parser_from (InName lit "") rest
        end
      else if Ascii.eqb c "}" then
        match rest with
        | "" => stop (ValueError "Single '}' encountered in format string")
        | String c' rest' =>
            if Ascii.eqb c' "}"
            then emit (snoc lit "}", None) (formatter_parser_from (InLiteral "") rest')
            else stop (ValueError "Single '}' encountered in format string")
        end
      else formatter_parser_from (InLiteral (snoc lit c)) rest
  | InName lit name, "" =>
      stop (ValueError "expected '}' before end of string")
  | InName lit name, String c rest =>
      if Ascii.eqb c "{" then
        stop (ValueError "unexpected '{' in field name")
      else if Ascii.eqb c "[" then
        formatter_parser_from (InBracket lit (snoc name c)) rest
      else if Ascii.eqb c "}" then
        emit (lit, Some (ReplField name "" None))
             (formatter_parser_from (InLiteral "") rest)
      else if Ascii.eqb c ":" then
        formatter_parser_from (InSpec lit name None "" 0) rest
      else if Ascii.eqb c "!" then
        match rest with
        | "" => stop (ValueError
                  "end of string while looking for conversion specifier")
        | String cv rest' =>
            match rest' with
            | "" => stop (ValueError "unmatched '{' in format spec")
            | String c2 rest'' =>
                if Ascii.eqb c2 "}" then
                  emit (lit, Some (ReplField name "" (Some cv)))
                       (formatter_parser_from (InLiteral "") rest'')
                else if Ascii.eqb c2 ":" then
                  formatter_parser_from (InSpec lit name (Some cv) "" 0) rest''
                else stop (ValueError "expected ':' after conversion specifier")
            end
        end
      else formatter_parser_from (InName lit (snoc name c)) rest
  | InBracket lit name, "" =>
      stop (ValueError "expected '}' before end of string")
  | InBracket lit name, String c rest =>
      if Ascii.eqb c "]"
      then formatter_parser_from (InName lit (snoc name c)) rest
      else formatter_parser_from (InBracket lit (snoc name c)) rest
  | InSpec lit name conv spec depth, "" =>
      stop (ValueError "unmatched '{' in format spec")
  | InSpec lit name conv spec depth, String c rest =>
      if Ascii.eqb c "{" then
        formatter_parser_from (InSpec lit name conv (snoc spec c) (S depth)) rest
      else if Ascii.eqb c "}" then
        match depth with
        | O => emit (lit, Some (ReplField name spec conv))
                    (formatter_parser_from (InLiteral "") rest)
        | S d => formatter_parser_from (InSpec lit name conv (snoc spec c) d) rest
        end
      else formatter_parser_from (InSpec lit name conv (snoc spec c) depth) rest
  end.

Definition formatter_parser (s : string) : parsed markup :=
  formatter_parser_from (InLiteral "") s.

(** [formatter_field_name_split]: the part before the first [.] or [[],
    and the accessors that follow. *)
Inductive accessor :=
  | Attr (name : string)
  | Item (key : string).

Fixpoint split_first (s : string) : string * string :=
  match s with
  | "" => ("", "")
  | String c s' =>
      if Ascii.eqb c "." || Ascii.eqb c "[" then ("", s)
      else let '(a, b) := split_first s' in (String c a, b)
  end.

Inductive rest_mode :=
  | AtStart
  | InAttr (acc : string)
  | InItem (acc : string).

Definition empty_attribute : exn :=
  ValueError "Empty attribute in format string".

Fixpoint field_name_rest (m : rest_mode) (s : string) {struct s}
  : parsed accessor :=
  match m, s with
  | AtStart, "" => ([], None)
  | AtStart, String c r =>
      if Ascii.eqb c "." then field_name_rest (InAttr "") r
      else if Ascii.eqb c "[" then field_name_rest (InItem "") r
      else stop (ValueError
        "Only '.' or '[' may follow ']' in format field specifier")
  | InAttr acc, "" =>
      if is_empty acc then stop empty_attribute else ([Attr acc], None)
  | InAttr acc, String c r =>
      if Ascii.eqb c "." then
        if is_empty acc then stop empty_attribute
        else emit (Attr acc) (field_name_rest (InAttr "") r)
      else if Ascii.eqb c "[" then
        if is_empty acc then stop empty_attribute
        else emit (Attr acc) (field_name_rest (InItem "") r)
      else field_name_rest (InAttr (snoc acc c)) r
  | InItem acc, "" => stop (ValueError "Missing ']' in format string")
  | InItem acc, String c r =>
      if Ascii.eqb c "]" then
        if is_empty acc then stop empty_attribute
        else emit (Item acc) (field_name_rest AtStart r)
      else field_name_rest (InItem (snoc acc c)) r
  end.

Definition is_digit (c : ascii) : bool :=
  let n := nat_of_ascii c in (48 <=? n)%nat && (n <=? 57)%nat.

Fixpoint all_digits (s : string) : bool :=
  match s with
  | "" => true
  | String c s' => is_digit c && all_digits s'
  end.

Definition is_ascii (c : ascii) : bool := (nat_of_ascii c <? 128)%nat.

(** No ASCII character other than a digit. *)
Fixpoint index_like (s : string) : bool :=
  match s with
  | "" => true
  | String c s' => (is_digit c || negb (is_ascii c)) && index_like s'
  end.

(** [get_integer] can succeed: the name is not empty and holds no ASCII
    character other than a digit.  CPython reads the decimal digits of
    every script, so a character outside ASCII may be one; with an ASCII
    character that is no digit the name is a key for sure. *)
Definition is_index (s : string) : bool :=
  negb (is_empty s) && index_like s.

(** The number a run of ASCII digits writes. *)
Fixpoint decimal (acc : N) (s : string) : N :=
  match s with
  | "" => acc
  | String c s' => decimal (acc * 10 + N.of_nat (nat_of_ascii c - 48)) s'
  end.

(** The largest [Py_ssize_t], on a 64-bit build. *)
Definition PY_SSIZE_T_MAX : N := 9223372036854775807.

Definition formatter_field_name_split (field_name : string)
  : string * parsed accessor :=
  let '(first, rest) := split_first field_name in
  (first, field_name_rest AtStart rest).

(** ** The store: tables, fields and the builder context *)

(** A field object.  [BaseField.__init__] sets [_pname] and [_lname]
    first and [_table] only when [set_table] returns; [DerivedField]
    then sets [_expression] and [_sources].  An attribute not yet set
    is [None]. *)
Inductive field_kind :=
  | KRaw
  | KDerived (expression : option string) (sources : option (gset pyval)).

Record Field := mkField {
  f_pname : string;
  f_lname : string;
  f_table : option tref;
  f_kind : field_kind }.

(** The attributes a [DerivedTable] adds to a [BaseTable]. *)
Record Derived := mkDerived {
  d_groupby : gset pyval;
  d_sources : gmap string tref;
  d_from_expression : string }.

(** A table object.  [_fields] is a dict: insertion order is kept since
    [get_select] walks it. *)
Record Table := mkTable {
  t_schema : string;
  t_pname : string;
  t_lname : string;
  t_alias : string;
  t_fields : list (string * fref);
  t_derived : option Derived }.

(** The state of the process: every table and field object allocated so
    far and the module-level list [CURRENT_TABLE_CONTEXT]. *)
Record State := mkState {
  tables : list Table;
  fields : list Field;
  CURRENT_TABLE_CONTEXT : list tref }.

Definition initial : State := mkState [] [] [].

Definition lookup_table (s : State) (t : tref) : result Table :=
  of_option (tables s !! t) NoSuchObject.

Definition lookup_field (s : State) (f : fref) : result Field :=
  of_option (fields s !! f) NoSuchObject.

(** [key in d], [d[key]] on a dict kept as an association list. *)
Fixpoint dict_get {V} (key : string) (d : list (string * V)) : option V :=
  match d with
  | [] => None
  | (k, v) :: d' => if String.eqb k key then Some v else dict_get key d'
  end.

(** [BaseTable.__getitem__] *)
Definition __getitem__ (s : State) (t : tref) (key : string) : result pyval :=
  tb ← lookup_table s t;
  match dict_get key (t_fields tb) with
  | None => Raise (UndefinedFieldException t key)
  | Some f => Ok (VField f)
  end.

(** [BaseTable.__getattr__] *)
Definition __getattr__ (s : State) (t : tref) (key : string) : result pyval :=
  __getitem__ s t key.

Definition mem (x : string) (l : list string) : bool :=
  existsb (String.eqb x) l.

Definition private (name : string) : bool :=
  match name with String c _ => Ascii.eqb c "_" | "" => false end.

(** The methods an instance finds on its class before [__getattr__] is
    asked. *)
Definition table_methods (tb : Table) : list string :=
  ["add_field"; "describe"] ++
  match t_derived tb with
  | Some _ => ["groupby"; "get_source"; "get_select"; "get_from";
               "get_groupby"; "get_query"]
  | None => []
  end.

Definition field_methods : list string :=
  ["set_table"; "get_expression"; "get_sources"; "get_lineage"; "describe"].

(** [getattr(table, name)].  The string attributes are followed; the
    dict and set attributes, the methods and the other names that start
    with an underscore (what [object] and [ABC] define) are left
    [Unmodelled]; every other name is not found by the normal lookup and
    goes to [__getattr__]. *)
Definition table_getattr (s : State) (t : tref) (name : string) : result pyval :=
  tb ← lookup_table s t;
  if String.eqb name "_schema" then Ok (VStr (t_schema tb))
  else if String.eqb name "_pname" then Ok (VStr (t_pname tb))
  else if String.eqb name "_lname" then Ok (VStr (t_lname tb))
  else if String.eqb name "_alias" then Ok (VStr (t_alias tb))
  else if mem name ["_from_expression"; "_sources"; "_groupby"] then
    match t_derived tb with
    | Some d =>
        if String.eqb name "_from_expression"
        then Ok (VStr (d_from_expression d))
        else Raise Unmodelled
    | None => __getattr__ s t name
    end
  else if private name then Raise Unmodelled
  else if mem name (table_methods tb) then Raise Unmodelled
  else __getattr__ s t name.

(** [getattr(field, name)]: fields have no [__getattr__]. *)
Definition field_getattr (s : State) (f : fref) (name : string) : result pyval :=
  fd ← lookup_field s f;
  if String.eqb name "_pname" then Ok (VStr (f_pname fd))
  else if String.eqb name "_lname" then Ok (VStr (f_lname fd))
  else if String.eqb name "_table" then
    match f_table fd with
    | Some t => Ok (VTable t)
    | None => Raise AttributeError
    end
  else if String.eqb name "_expression" then
    match f_kind fd with
    | KDerived (Some e) _ => Ok (VStr e)
    | _ => Raise AttributeError
    end
  else if String.eqb name "_sources" then
    match f_kind fd with
    | KDerived _ (Some _) => Raise Unmodelled
    | _ => Raise AttributeError
    end
  else if private name then Raise Unmodelled
  else if mem name field_methods then Raise Unmodelled
  else Raise AttributeError.

Definition py_getattr (s : State) (v : pyval) (name : string) : result pyval :=
  match v with
  | VTable t => table_getattr s t name
  | VField f => field_getattr s f name
  | VStr _ => Raise Unmodelled
  end.

(** [obj[key]]; a key that [get_integer] reads is an [int] in Python. *)
Definition py_getitem (s : State) (v : pyval) (key : string) : result pyval :=
  match v with
  | VTable t => if is_index key then Raise Unmodelled else __getitem__ s t key
  | VField _ => Raise TypeError
  | VStr _ => if is_index key then Raise Unmodelled else Raise TypeError
  end.

(** The loop of [Formatter.get_field] over the rest of a field name. *)
Fixpoint follow (s : State) (obj : pyval) (accs : list accessor)
    (err : option exn) : result pyval :=
  match accs with
  | [] => match err with None => Ok obj | Some e => Raise e end
  | Attr name :: accs' => obj' ← py_getattr s obj name; follow s obj' accs' err
  | Item key :: accs' => obj' ← py_getitem s obj key; follow s obj' accs' err
  end.

(** What [self._table._sources] evaluates to: the alias mapping of a
    derived table; on a raw table the attribute is missing, so
    [__getattr__] answers with the field of that name, if there is one. *)
Inductive context :=
  | CtxMapping (m : gmap string tref)
  | CtxField (f : fref).

Definition table_sources (s : State) (t : tref) : result context :=
  tb ← lookup_table s t;
  match t_derived tb with
  | Some d => Ok (CtxMapping (d_sources d))
  | None =>
      v ← __getattr__ s t "_sources";
      match v with
      | VField f => Ok (CtxField f)
      | _ => Raise Unmodelled
      end
  end.

(** What a first part that can be an index raises when there is no
    positional argument.  A run of ASCII digits is an index: out of
    range, or too large for [get_integer].  A name with characters
    outside ASCII is an index only if they are all decimal digits,
    which this development does not decide. *)
Definition positional (first : string) : exn :=
  if all_digits first then
    if (decimal 0 first <=? PY_SSIZE_T_MAX)%N then IndexError
    else ValueError "Too many decimal digits in format string"
  else Unmodelled.

(** [Formatter.get_value(first, [], context)] *)
Definition get_value (first : string) (ctx : context) : result pyval :=
  if is_index first then Raise (positional first)
  else match ctx with
       | CtxMapping m => of_option (VTable <$> m !! first) (KeyError first)
       | CtxField _ => Raise TypeError
       end.

(** [Formatter.get_field(field_name, [], context)] *)
Definition get_field (s : State) (field_name : string) (ctx : context)
  : result pyval :=
  let '(first, (accs, err)) := formatter_field_name_split field_name in
  obj ← get_value first ctx;
  follow s obj accs err.

(** The loop of [get_fields_from_expr]. *)
Fixpoint collect_fields (s : State) (ctx : context) (items : list markup)
    (err : option exn) (field_list : gset pyval) : result (gset pyval) :=
  match items with
  | [] => match err with None => Ok field_list | Some e => Raise e end
  | (_, fld) :: items' =>
      match fld with
      | Some rf =>
          if is_empty (rf_name rf)
          then collect_fields s ctx items' err field_list
          else
            field ← get_field s (rf_name rf) ctx;
            collect_fields s ctx items' err (field_list ∪ {[field]})
      | None => collect_fields s ctx items' err field_list
      end
  end.

Definition get_fields_from_expr (s : State) (expression : string)
    (ctx : context) : result (gset pyval) :=
  let '(items, err) := formatter_parser expression in
  collect_fields s ctx items err ∅.

(** ** [str] of objects and [str.format] *)

(** [BaseTable.__str__] *)
Definition table_str (tb : Table) : string :=
  t_schema tb +:+ "." +:+ t_pname tb +:+ " as " +:+ t_alias tb.

(** [str(v)]; [BaseField.__str__] reads [self._table], and a table
    object is always true. *)
Definition py_str (s : State) (v : pyval) : result string :=
  match v with
  | VStr x => Ok x
  | VTable t => tb ← lookup_table s t; Ok (table_str tb)
  | VField f =>
      fd ← lookup_field s f;
      match f_table fd with
      | None => Raise AttributeError
      | Some t =>
          tb ← lookup_table s t;
          Ok (t_alias tb +:+ "." +:+ f_pname fd)
      end
  end.

Fixpoint has_brace (s : string) : bool :=
  match s with
  | "" => false
  | String c s' => Ascii.eqb c "{" || has_brace s'
  end.

(** The [!s], [!r] and [!a] conversions; [__repr__] of a table or field
    is its [__str__]. *)
Definition convert (s : State) (conv : option ascii) (v : pyval) : result pyval :=
  match conv with
  | None => Ok v
  | Some c =>
      if Ascii.eqb c "s" then x ← py_str s v; Ok (VStr x)
      else if Ascii.eqb c "r" then
        match v with
        | VStr _ => Raise Unmodelled
        | _ => x ← py_str s v; Ok (VStr x)
        end
      else if Ascii.eqb c "a" then Raise Unmodelled
      else Raise (ValueError (snoc "Unknown conversion specifier " c))
  end.

(** [format(v, spec)]: [object.__format__] accepts the empty
    specification only. *)
Definition render (s : State) (v : pyval) (spec : string) : result string :=
  if is_empty spec then py_str s v
  else match v with
       | VStr _ => Raise Unmodelled
       | _ => Raise TypeError
       end.

(** The object of a replacement field of [str.format] called with
    keyword arguments only: an empty or numeric first part indexes the
    empty tuple of positional arguments. *)
Definition format_field (s : State) (kwargs : gmap string pyval)
    (field_name : string) : result pyval :=
  let '(first, (accs, err)) := formatter_field_name_split field_name in
  obj ← (if is_empty first then Raise IndexError
         else if is_index first then Raise (positional first)
         else of_option (kwargs !! first) (KeyError first));
  follow s obj accs err.

Fixpoint format_items (s : State) (kwargs : gmap string pyval)
    (items : list markup) (err : option exn) : result string :=
  match items with
  | [] => match err with None => Ok "" | Some e => Raise e end
  | (lit, fld) :: items' =>
      piece ← match fld with
              | None => Ok ""
              | Some rf =>
                  obj ← format_field s kwargs (rf_name rf);
                  obj' ← convert s (rf_conversion rf) obj;
                  if has_brace (rf_spec rf) then Raise Unmodelled
                  else render s obj' (rf_spec rf)
              end;
      rest ← format_items s kwargs items' err;
      Ok (lit +:+ piece +:+ rest)
  end.

(** [str.format] called on [template] with the keyword arguments
    [kwargs]. *)
Definition format (s : State) (template : string)
    (kwargs : gmap string pyval) : result string :=
  let '(items, err) := formatter_parser template in
  format_items s kwargs items err.

(** [str.format] with [self._sources] splatted into keyword arguments:
    the splat needs a mapping. *)
Definition format_sources (s : State) (template : string) (ctx : context)
  : result string :=
  match ctx with
  | CtxMapping m => format s template (VTable <$> m)
  | CtxField _ => Raise TypeError
  end.

(** ** [loom/tables.py] *)

(** [lname if lname else pname]: [None] and the empty string are both
    false. *)
Definition default_to (pname : string) (o : option string) : string :=
  match o with
  | Some x => if is_empty x then pname else x
  | None => pname
  end.

(** [BaseTable.__init__]; the new object's reference is returned. *)
Definition new_table (s : State) (tb : Table) : State * tref :=
  (mkState (tables s ++ [tb]) (fields s) (CURRENT_TABLE_CONTEXT s),
   length (tables s)).

Definition RawTable (schema pname : string) (lname alias : option string)
    (s : State) : State * result tref :=
  let tb := mkTable schema pname (default_to pname lname)
              (default_to pname alias) [] None in
  let '(s', t) := new_table s tb in (s', Ok t).

(** [DerivedTable._process_sources]: [{t._alias: t for t in sources}];
    a later table replaces an earlier one under the same alias. *)
Fixpoint _process_sources (s : State) (sources : list tref)
    (acc : gmap string tref) : result (gmap string tref) :=
  match sources with
  | [] => Ok acc
  | t :: rest =>
      tb ← lookup_table s t;
      _process_sources s rest (<[t_alias tb := t]> acc)
  end.

(** [DerivedTable.__init__] *)
Definition DerivedTable (schema pname : string) (sources : list tref)
    (from_expression : string) (lname alias : option string)
    (s : State) : State * result tref :=
  match _process_sources s sources ∅ with
  | Raise e => (s, Raise e)
  | Ok m =>
      let tb := mkTable schema pname (default_to pname lname)
                  (default_to pname alias) []
                  (Some (mkDerived ∅ m from_expression)) in
      let '(s', t) := new_table s tb in (s', Ok t)
  end.

(** [BaseTable.__enter__] *)
Definition __enter__ (t : tref) (s : State) : State * result unit :=
  if (0 <? length (CURRENT_TABLE_CONTEXT s))%nat then (s, Raise RuntimeError)
  else (mkState (tables s) (fields s) (CURRENT_TABLE_CONTEXT s ++ [t]), Ok ()).

(** [list.remove(x)]: the first occurrence goes. *)
Fixpoint list_remove (x : tref) (l : list tref) : list tref :=
  match l with
  | [] => []
  | y :: l' => if Nat.eqb y x then l' else y :: list_remove x l'
  end.

(** [BaseTable.__exit__] *)
Definition __exit__ (t : tref) (s : State) : State * result unit :=
  if existsb (Nat.eqb t) (CURRENT_TABLE_CONTEXT s)
  then (mkState (tables s) (fields s)
          (list_remove t (CURRENT_TABLE_CONTEXT s)), Ok ())
  else (s, Raise RuntimeError).

(** [self._fields[pname] = f] for a name that is not a key yet. *)
Definition registered (tb : Table) (pname : string) (f : fref) : Table :=
  mkTable (t_schema tb) (t_pname tb) (t_lname tb) (t_alias tb)
    (t_fields tb ++ [(pname, f)]) (t_derived tb).

(** [BaseTable.add_field]: the table [t] gets the field object [f],
    whose [_pname] is already set. *)
Definition add_field (t : tref) (f : fref) (s : State) : State * result unit :=
  match lookup_table s t, lookup_field s f with
  | Ok tb, Ok fd =>
      match dict_get (f_pname fd) (t_fields tb) with
      | Some _ => (s, Raise (DuplicatedFieldException t f))
      | None =>
          (mkState (<[t := registered tb (f_pname fd) f]> (tables s))
             (fields s) (CURRENT_TABLE_CONTEXT s), Ok ())
      end
  | Raise e, _ | _, Raise e => (s, Raise e)
  end.

(** A method of [DerivedTable] looked up on table [t].  A raw table has
    no such method: [__getattr__] is asked, and what it returns, a field
    object, cannot be called. *)
Definition derived_method (s : State) (t : tref) (name : string)
  : result (Table * Derived) :=
  tb ← lookup_table s t;
  match t_derived tb with
  | Some d => Ok (tb, d)
  | None => _ ← __getattr__ s t name; Raise TypeError
  end.

Definition set_derived (tb : Table) (d : Derived) : Table :=
  mkTable (t_schema tb) (t_pname tb) (t_lname tb) (t_alias tb)
    (t_fields tb) (Some d).

(** [DerivedTable.groupby]: [self._groupby = set(fields)] *)
Definition groupby (t : tref) (keys : list pyval) (s : State)
  : State * result unit :=
  match derived_method s t "groupby" with
  | Raise e => (s, Raise e)
  | Ok (tb, d) =>
      let d' := mkDerived (list_to_set keys) (d_sources d)
                  (d_from_expression d) in
      (mkState (<[t := set_derived tb d']> (tables s)) (fields s)
         (CURRENT_TABLE_CONTEXT s), Ok ())
  end.

(** [DerivedTable.get_source] *)
Definition get_source (s : State) (t : tref) (key : string) : result tref :=
  '(tb, d) ← derived_method s t "get_source";
  of_option (d_sources d !! key) (UnregisteredSourceException t key).

(** ** [loom/fields.py] *)

(** Object creation: the instance exists before [__init__] runs. *)
Definition new_field (s : State) (fd : Field) : State * fref :=
  (mkState (tables s) (fields s ++ [fd]) (CURRENT_TABLE_CONTEXT s),
   length (fields s)).

Definition update_field (f : fref) (g : Field → Field) (s : State) : State :=
  match fields s !! f with
  | Some fd =>
      mkState (tables s) (<[f := g fd]> (fields s)) (CURRENT_TABLE_CONTEXT s)
  | None => s
  end.

(** [BaseField.set_table] *)
Definition set_table (f : fref) (s : State) : State * result tref :=
  match CURRENT_TABLE_CONTEXT s with
  | [] =>
      match lookup_field s f with
      | Ok fd => (s, Raise (NoTableContextSetException (f_pname fd)))
      | Raise e => (s, Raise e)
      end
  | table :: _ =>
      match add_field table f s with
      | (s', Ok _) => (s', Ok table)
      | (s', Raise e) => (s', Raise e)
      end
  end.

(** [BaseField.__init__] *)
Definition BaseField (pname : string) (lname : option string)
    (kind : field_kind) (s : State) : State * result fref :=
  let '(s1, self) :=
    new_field s (mkField pname (default_to pname lname) None kind) in
  match set_table self s1 with
  | (s2, Ok table) =>
      (update_field self
         (λ fd, mkField (f_pname fd) (f_lname fd) (Some table) (f_kind fd)) s2,
       Ok self)
  | (s2, Raise e) => (s2, Raise e)
  end.

Definition RawField (pname : string) (lname : option string) (s : State)
  : State * result fref :=
  BaseField pname lname KRaw s.

Definition set_expression (e : string) (fd : Field) : Field :=
  mkField (f_pname fd) (f_lname fd) (f_table fd)
    match f_kind fd with
    | KDerived _ srcs => KDerived (Some e) srcs
    | KRaw => KRaw
    end.

Definition set_sources (srcs : gset pyval) (fd : Field) : Field :=
  mkField (f_pname fd) (f_lname fd) (f_table fd)
    match f_kind fd with
    | KDerived e _ => KDerived e (Some srcs)
    | KRaw => KRaw
    end.

(** [self._table._sources] read from the field [f]. *)
Definition owner_sources (s : State) (f : fref) : result context :=
  fd ← lookup_field s f;
  t ← of_option (f_table fd) AttributeError;
  table_sources s t.

(** [DerivedField.__init__] *)
Definition DerivedField (pname expression : string) (lname : option string)
    (s : State) : State * result fref :=
  match BaseField pname lname (KDerived None None) s with
  | (s1, Raise e) => (s1, Raise e)
  | (s1, Ok self) =>
      let s2 := update_field self (set_expression expression) s1 in
      match ctx ← owner_sources s2 self;
            get_fields_from_expr s2 expression ctx with
      | Raise e => (s2, Raise e)
      | Ok srcs => (update_field self (set_sources srcs) s2, Ok self)
      end
  end.

(** [get_expression], dispatched on the class of the field. *)
Definition get_expression (s : State) (f : fref) : result string :=
  fd ← lookup_field s f;
  match f_kind fd with
  | KRaw => Ok (f_pname fd)
  | KDerived oe _ =>
      e ← of_option oe AttributeError;
      ctx ← owner_sources s f;
      expression ← format_sources s e ctx;
      Ok (expression +:+ " as " +:+ f_pname fd)
  end.

(** [get_sources] *)
Definition get_sources (s : State) (f : fref) : result (gset pyval) :=
  fd ← lookup_field s f;
  match f_kind fd with
  | KRaw => Ok {[VField f]}
  | KDerived _ srcs => of_option srcs AttributeError
  end.

(** ** Lineage and query generation

    Python iterates a set in an order the language does not fix.  The
    order is a parameter of this section; the theorems ask only that it
    lists each set's elements once. *)

(** [for v in l: lineage = lineage | call(v)] *)
Fixpoint union_loop (call : pyval → result (gset pyval)) (l : list pyval)
    (lineage : gset pyval) : result (gset pyval) :=
  match l with
  | [] => Ok lineage
  | v :: l' => r ← call v; union_loop call l' (lineage ∪ r)
  end.

(** [v.get_lineage()] for an element [v] of a source set: a field runs
    its method [self_lineage]; a string has no such attribute; on a table
    [__getattr__] answers, with a field that cannot be called. *)
Definition call_get_lineage (s : State)
    (self_lineage : fref → result (gset pyval)) (v : pyval)
  : result (gset pyval) :=
  match v with
  | VField f => self_lineage f
  | VStr _ => Raise AttributeError
  | VTable t => _ ← __getattr__ s t "get_lineage"; Raise TypeError
  end.

(** [v._pname] for an element of the grouping set. *)
Definition attr_pname (s : State) (v : pyval) : result string :=
  match v with
  | VField f => fd ← lookup_field s f; Ok (f_pname fd)
  | VTable t => tb ← lookup_table s t; Ok (t_pname tb)
  | VStr _ => Raise AttributeError
  end.

Fixpoint mapM {A B} (f : A → result B) (l : list A) : result (list B) :=
  match l with
  | [] => Ok []
  | x :: l' => y ← f x; ys ← mapM f l'; Ok (y :: ys)
  end.

(** [DerivedTable.get_select] *)
Definition get_select (s : State) (t : tref) (indent : nat) : result string :=
  '(tb, _) ← derived_method s t "get_select";
  es ← mapM (λ kf, get_expression s kf.2) (t_fields tb);
  let statement := join ("," +:+ NL) es in
  Ok (replace nl (NL +:+ spaces indent) statement).

(** [DerivedTable.get_from] *)
Definition get_from (s : State) (t : tref) : result string :=
  '(_, d) ← derived_method s t "get_from";
  format s (d_from_expression d) (VTable <$> d_sources d).

(** The template of [get_query], as written in the source. *)
Definition query_doc : string := "
            create table {new_table} as
            select
                {select_expr}
            from
                {from_expr}
            {where_expr}
            {groupby_expr};
        ".

Section Iteration.
Variable set_order : gset pyval → list pyval.

(** [get_lineage] with a bound on the depth of the recursion. *)
Fixpoint get_lineage_at (depth : nat) (s : State) (f : fref)
  : result (gset pyval) :=
  match depth with
  | O => Raise OutOfFuel
  | S depth' =>
      fd ← lookup_field s f;
      match f_kind fd with
      | KRaw => Ok {[VField f]}
      | KDerived _ srcs =>
          X ← of_option srcs AttributeError;
          union_loop (call_get_lineage s (get_lineage_at depth' s))
            (set_order X) ∅
      end
  end.

(** A chain of sources never needs more calls than there are fields,
    see [get_lineage_total]. *)
Definition get_lineage (s : State) (f : fref) : result (gset pyval) :=
  get_lineage_at (length (fields s)) s f.

(** [DerivedTable.get_groupby] *)
Definition get_groupby (s : State) (t : tref) : result string :=
  '(_, d) ← derived_method s t "get_groupby";
  if Nat.eqb (size (d_groupby d)) 0 then Ok ""
  else
    names ← mapM (attr_pname s) (set_order (d_groupby d));
    let statement := join ("," +:+ NL) names in
    Ok ("group by " +:+ NL +:+ " " +:+ statement).

(** [DerivedTable.get_query] *)
Definition get_query (s : State) (t : tref) : result string :=
  '(tb, _) ← derived_method s t "get_query";
  select_expr ← get_select s t 4;
  from_expr ← get_from s t;
  groupby_expr ← get_groupby s t;
  format s (cleandoc query_doc)
    (<["new_table" := VStr (t_pname tb)]>
     (<["select_expr" := VStr select_expr]>
      (<["from_expr" := VStr from_expr]>
       (<["where_expr" := VStr ""]>
        (<["groupby_expr" := VStr groupby_expr]> ∅))))).
End Iteration.

(** ** Shapes of expressions the theorems speak about *)

(** No [{] and no [}]: plain text for the format mini-language. *)
Fixpoint no_braces (s : string) : bool :=
  match s with
  | "" => true
  | String c s' =>
      negb (Ascii.eqb c "{") && negb (Ascii.eqb c "}") && no_braces s'
  end.

(** None of the characters that end a field name or open a bracket,
    a conversion or a specification inside it. *)
Definition field_char (c : ascii) : bool :=
  negb (existsb (Ascii.eqb c) ["{"; "}"; "["; "]"; ":"; "!"]%char).

(** A field name made of attribute accesses only, as in [alias.field]. *)
Fixpoint dotted_name (s : string) : bool :=
  match s with
  | "" => true
  | String c s' => field_char c && dotted_name s'
  end.

(** A name without dots: an alias or an attribute. *)
Fixpoint plain_name (s : string) : bool :=
  match s with
  | "" => true
  | String c s' => field_char c && negb (Ascii.eqb c ".") && plain_name s'
  end.

(** What the comprehension of [_process_sources] leaves under the alias
    [a]: the last table of the list whose alias is [a]. *)
Fixpoint last_aliased (s : State) (a : string) (sources : list tref)
  : option tref :=
  match sources with
  | [] => None
  | t :: rest =>
      match last_aliased s a rest with
      | Some t' => Some t'
      | None =>
          match tables s !! t with
          | Some tb => if String.eqb (t_alias tb) a then Some t else None
          | None => None
          end
      end
  end.

(** A name that is neither private nor a method of a table: on a table
    object only [__getattr__] can answer for it. *)
Definition ordinary (name : string) : bool :=
  negb (private name) &&
  negb (mem name ["add_field"; "describe"; "groupby"; "get_source";
                  "get_select"; "get_from"; "get_groupby"; "get_query"]).

(** ** Programs over the store

    The operations that change the store, as a client of the two modules
    can call them, and the states such calls can reach. *)

Inductive op :=
  | NewRawTable (schema pname : string) (lname alias : option string)
  | NewDerivedTable (schema pname : string) (sources : list tref)
      (from_expression : string) (lname alias : option string)
  | Enter (t : tref)
  | Exit (t : tref)
  | NewRawField (pname : string) (lname : option string)
  | NewDerivedField (pname expression : string) (lname : option string)
  | Groupby (t : tref) (keys : list pyval).

(** The state an operation leaves behind, whether it returns or raises. *)
Definition exec (o : op) (s : State) : State :=
  match o with
  | NewRawTable schema pname lname alias =>
      (RawTable schema pname lname alias s).1
  | NewDerivedTable schema pname sources from_expression lname alias =>
      (DerivedTable schema pname sources from_expression lname alias s).1
  | Enter t => (__enter__ t s).1
  | Exit t => (__exit__ t s).1
  | NewRawField pname lname => (RawField pname lname s).1
  | NewDerivedField pname expression lname =>
      (DerivedField pname expression lname s).1
  | Groupby t keys => (groupby t keys s).1
  end.

Definition run (ops : list op) (s : State) : State :=
  foldl (λ s o, exec o s) s ops.

(** The stores a sequence of operations builds from the empty one.  An
    operation that stops with an exception leaves the store it had
    reached; where that exception is [Unmodelled], Python goes on and
    its store is not described here. *)
Inductive reachable : State → Prop :=
  | reachable_initial : reachable initial
  | reachable_exec s o : reachable s → reachable (exec o s).

(** ** Invariants of the store *)

(** A field registered in a table exists, is registered under its own
    physical name and points back to that table. *)
Definition fields_owned (s : State) : Prop :=
  ∀ t tb n f,
    tables s !! t = Some tb → (n, f) ∈ t_fields tb →
    ∃ fd, fields s !! f = Some fd ∧ f_table fd = Some t ∧ f_pname fd = n.

(** The sources of a derived table were created before it, and each is
    filed under its own alias. *)
Definition sources_older (s : State) : Prop :=
  ∀ t tb d a src,
    tables s !! t = Some tb → t_derived tb = Some d →
    d_sources d !! a = Some src →
    (src < t)%nat ∧ ∃ stb, tables s !! src = Some stb ∧ t_alias stb = a.

(** The fields a derived field reads were created before it. *)
Definition lineage_older (s : State) : Prop :=
  ∀ f fd e X g,
    fields s !! f = Some fd → f_kind fd = KDerived e (Some X) →
    VField g ∈ X → (g < f)%nat.

(** A value reached from the sources of table [t]: a string, a table
    other than [t], or a field registered in such a table. *)
Definition foreign (s : State) (t : tref) (v : pyval) : Prop :=
  match v with
  | VStr _ => True
  | VTable t' => t' ≠ t
  | VField g =>
      ∃ t' tb' n, t' ≠ t ∧ tables s !! t' = Some tb' ∧ (n, g) ∈ t_fields tb'
  end.

(** A context whose tables are all other than [t]. *)
Definition foreign_context (t : tref) (ctx : context) : Prop :=
  match ctx with
  | CtxMapping m => ∀ a src, m !! a = Some src → src ≠ t
  | CtxField _ => True
  end.

Record wf (s : State) : Prop := mkWf {
  wf_depth : (length (CURRENT_TABLE_CONTEXT s) ≤ 1)%nat;
  wf_owned : fields_owned s;
  wf_sources : sources_older s;
  wf_lineage : lineage_older s }.

(** ** Example programs *)

(** A raw table [schema.a] with the fields [id] and [vendor_id]. *)
Definition source_a : list op :=
  [NewRawTable "schema" "a" None None; Enter 0;
   NewRawField "id" None; NewRawField "vendor_id" None; Exit 0].

(** The same table with its scope still open, after its first field. *)
Definition open_a : State :=
  run [NewRawTable "schema" "a" None None; Enter 0; NewRawField "id" None]
    initial.

(** The derived table [schema.b] over [a], with its scope open. *)
Definition open_b : State :=
  run (source_a ++ [NewDerivedTable "schema" "b" [0] "{a}" None None; Enter 1])
    initial.

(** The derived table [schema.b] with the field [id] read from [a.id],
    its scope closed. *)
Definition closed_b : State :=
  run (source_a ++
       [NewDerivedTable "schema" "b" [0] "{a}" None None; Enter 1;
        NewDerivedField "id" "{a.id}" None; Exit 1])
    initial.

(** A second derived table [schema.c] over [b], with the field [id]
    read from [b.id]: the chain [a.id], [b.id], [c.id]. *)
Definition closed_c : State :=
  run (source_a ++
       [NewDerivedTable "schema" "b" [0] "{a}" None None; Enter 1;
        NewDerivedField "id" "{a.id}" None; Exit 1;
        NewDerivedTable "schema" "c" [1] "{b}" None None; Enter 2;
        NewDerivedField "id" "{b.id}" None; Exit 2])
    initial.

(** An iteration order that differs from [elements]. *)
Definition backwards (X : gset pyval) : list pyval := reverse (elements X).

(** Two raw tables that share the alias [a]. *)
Definition two_a : State :=
  run [NewRawTable "schema" "a" None None;
       NewRawTable "other" "a2" None (Some "a")]
    initial.

(** The example of the [DerivedField] docstring: a raw table with alias [t1] and a field
    [income], and a derived table over it with its scope open. *)
Definition open_t2 : State :=
  run [NewRawTable "main" "table_1" (Some "Table 1") (Some "t1"); Enter 0;
       NewRawField "income" (Some "Customer Income"); Exit 0;
       NewDerivedTable "main" "table_2" [0] "{t1}" (Some "Table 2") (Some "t2");
       Enter 1]
    initial.

(** [closed_b] grouped by the field [vendor_id] of its source. *)
Definition grouped_b : State := exec (Groupby 1 [VField 1]) closed_b.

(** ** The descriptions of fields and tables *)

(** [BaseField.describe] *)
Definition field_describe (s : State) (f : fref) : result string :=
  fd ← lookup_field s f;
  Ok (f_pname fd +:+ ": " +:+ f_lname fd).

(** The template of [BaseTable.describe], as written in the source. *)
Definition describe_doc : string := "
            {lname}

            Schema: {schema}
            Physical Name: {pname}

            Fields:
                {fields}
        ".

(** [BaseTable.describe]; the method is defined on every table, raw or
    derived. *)
Definition describe (s : State) (t : tref) : result string :=
  tb ← lookup_table s t;
  lines ← mapM (λ kf, d ← field_describe s kf.2; Ok ("- " +:+ d)) (t_fields tb);
  let fields := join (NL +:+ "    ") lines in
  format s (cleandoc describe_doc)
    (<["lname" := VStr (t_lname tb)]>
     (<["schema" := VStr (t_schema tb)]>
      (<["pname" := VStr (t_pname tb)]>
       (<["fields" := VStr fields]> ∅)))).

(** ** [loom/transformations.py] *)

(** [v._lname] for a resolved object. *)
Definition attr_lname (s : State) (v : pyval) : result string :=
  match v with
  | VField f => fd ← lookup_field s f; Ok (f_lname fd)
  | VTable t => tb ← lookup_table s t; Ok (t_lname tb)
  | VStr _ => Raise AttributeError
  end.

(** [from_single]: the table is [CURRENT_TABLE_CONTEXT[0]]; the
    expression is resolved first, it must name exactly one object, and
    the new field takes that object's physical and logical name. *)
Definition from_single (expression : string) (s : State)
  : State * result fref :=
  match CURRENT_TABLE_CONTEXT s with
  | [] => (s, Raise IndexError)
  | table :: _ =>
      match ctx ← table_sources s table;
            get_fields_from_expr s expression ctx with
      | Raise e => (s, Raise e)
      | Ok field_list =>
          match elements field_list with
          | [field] =>
              match attr_pname s field, attr_lname s field with
              | Ok pname, Ok lname =>
                  DerivedField pname expression (Some lname) s
              | Raise e, _ | _, Raise e => (s, Raise e)
              end
          | _ => (s, Raise AssertionError)
          end
      end
  end.

(** The template of [book_feature], as written in the source. *)
Definition feature_doc : string := "
        case
            when ({flag_expr}) and ({time_expr}) then {aggregator}({metric_expr})
            else null
        end
    ".

(** [book_feature] *)
Definition book_feature (pname flag_expr time_expr metric_expr
    aggregator : string) (lname : option string) (s : State)
  : State * result fref :=
  match format s (cleandoc feature_doc)
          (<["flag_expr" := VStr flag_expr]>
           (<["time_expr" := VStr time_expr]>
            (<["metric_expr" := VStr metric_expr]>
             (<["aggregator" := VStr aggregator]> ∅)))) with
  | Ok expression => DerivedField pname expression lname s
  | Raise e => (s, Raise e)
  end.

(** ** Further invariants and example states *)

(** No table holds two fields under one physical name. *)
Definition unique_names (s : State) : Prop :=
  ∀ t tb, tables s !! t = Some tb → NoDup (t_fields tb).*1.


(** What a table keeps for life: its names, its alias, its sources and
    its from-template; the fields registered so far stay in front. *)
Definition extends (tb tb' : Table) : Prop :=
  t_schema tb' = t_schema tb ∧ t_pname tb' = t_pname tb ∧
  t_lname tb' = t_lname tb ∧ t_alias tb' = t_alias tb ∧
  d_sources <$> t_derived tb' = d_sources <$> t_derived tb ∧
  d_from_expression <$> t_derived tb' = d_from_expression <$> t_derived tb ∧
  t_fields tb `prefix_of` t_fields tb'.

(** The raw table [schema.a] of [source_a], complete, with its scope
    open again. *)
Definition reopened_a : State := run (source_a ++ [Enter 0]) initial.

(** ** Placeholders that resolve *)




(** * Properties *)

Lemma cleandoc_query_doc :
  cleandoc query_doc =
  "create table {new_table} as" +:+ NL +:+
  "select" +:+ NL +:+
  "    {select_expr}" +:+ NL +:+
  "from" +:+ NL +:+
  "    {from_expr}" +:+ NL +:+
  "{where_expr}" +:+ NL +:+
  "{groupby_expr};".
Proof. reflexivity. Qed.

(** ** The store as a list of objects *)

Lemma lookup_last {A} (l : list A) (x : A) : (l ++ [x])%list !! length l = Some x.
Proof. induction l; simpl; auto. Qed.

Lemma insert_last {A} (l : list A) (x y : A) :
  <[length l := y]> (l ++ [x])%list = (l ++ [y])%list.
Proof. induction l; simpl; [done | by f_equal]. Qed.

Lemma lookup_grown {A} (l : list A) (x : A) (i : nat) (y : A) :
  l !! i = Some y → (l ++ [x])%list !! i = Some y.
Proof. intros H. by apply lookup_app_l_Some. Qed.

(** ** What [BaseField.__init__] does, case by case *)

Lemma BaseField_cases pname lname kind s :
  BaseField pname lname kind s =
  let self := length (fields s) in
  let lname' := default_to pname lname in
  let grown :=
    mkState (tables s) (fields s ++ [mkField pname lname' None kind])
      (CURRENT_TABLE_CONTEXT s) in
  match CURRENT_TABLE_CONTEXT s with
  | [] => (grown, Raise (NoTableContextSetException pname))
  | t :: _ =>
      match tables s !! t with
      | None => (grown, Raise NoSuchObject)
      | Some tb =>
          match dict_get pname (t_fields tb) with
          | Some _ => (grown, Raise (DuplicatedFieldException t self))
          | None =>
              (mkState (<[t := registered tb pname self]> (tables s))
                 (fields s ++ [mkField pname lname' (Some t) kind])
                 (CURRENT_TABLE_CONTEXT s),
               Ok self)
          end
      end
  end.
Proof.
  unfold BaseField, new_field, set_table, add_field, lookup_table,
    lookup_field, update_field; simpl.
  rewrite lookup_last; simpl.
  destruct (CURRENT_TABLE_CONTEXT s) as [|t ctx]; [done|].
  destruct (tables s !! t) as [tb|]; simpl; [|done].
  destruct (dict_get pname (t_fields tb)); simpl; [done|].
  rewrite lookup_last, insert_last. done.
Qed.

Lemma DerivedField_not_registered pname expression lname s e :
  (BaseField pname lname (KDerived None None) s).2 = Raise e →
  DerivedField pname expression lname s =
  BaseField pname lname (KDerived None None) s.
Proof.
  unfold DerivedField.
  destruct (BaseField pname lname (KDerived None None) s) as [s1 [f|e']];
    simpl; [done | by intros [= ->]].
Qed.

(** ** Fields need an open scope *)

(** C7: constructing a source or a derived field while
    [CURRENT_TABLE_CONTEXT] is empty raises [NoTableContextSetException]
    for the field's name, and leaves every table and the context as they
    were. *)
Theorem no_scope_open s pname expression lname :
  CURRENT_TABLE_CONTEXT s = [] →
  (RawField pname lname s).2 = Raise (NoTableContextSetException pname) ∧
  (DerivedField pname expression lname s).2
    = Raise (NoTableContextSetException pname) ∧
  tables (RawField pname lname s).1 = tables s ∧
  tables (DerivedField pname expression lname s).1 = tables s ∧
  CURRENT_TABLE_CONTEXT (RawField pname lname s).1 = [] ∧
  CURRENT_TABLE_CONTEXT (DerivedField pname expression lname s).1 = [].
Proof.
  intros Hctx.
  assert (Hbase : ∀ kind,
    BaseField pname lname kind s =
    (mkState (tables s)
       (fields s ++ [mkField pname (default_to pname lname) None kind]) [],
     Raise (NoTableContextSetException pname))).
  { intros kind. rewrite BaseField_cases. simpl. by rewrite Hctx. }
  unfold RawField.
  rewrite (DerivedField_not_registered _ _ _ _
             (NoTableContextSetException pname));
    rewrite !Hbase; done.
Qed.

Lemma no_scope_open_witness :
  (RawField "id" None initial).2 = Raise (NoTableContextSetException "id") ∧
  (DerivedField "id" "{a.id}" None initial).2
    = Raise (NoTableContextSetException "id") ∧
  tables (RawField "id" None initial).1 = tables initial ∧
  tables (DerivedField "id" "{a.id}" None initial).1 = tables initial ∧
  CURRENT_TABLE_CONTEXT (RawField "id" None initial).1 = [] ∧
  CURRENT_TABLE_CONTEXT (DerivedField "id" "{a.id}" None initial).1 = [].
Proof. apply (no_scope_open initial "id" "{a.id}" None). reflexivity. Defined.

(** ** What the constructors leave untouched *)

Lemma update_field_tables f g s : tables (update_field f g s) = tables s.
Proof. unfold update_field. by destruct (fields s !! f). Qed.

Lemma update_field_context f g s :
  CURRENT_TABLE_CONTEXT (update_field f g s) = CURRENT_TABLE_CONTEXT s.
Proof. unfold update_field. by destruct (fields s !! f). Qed.

Lemma BaseField_context pname lname kind s :
  CURRENT_TABLE_CONTEXT (BaseField pname lname kind s).1
  = CURRENT_TABLE_CONTEXT s.
Proof.
  rewrite BaseField_cases; simpl.
  destruct (CURRENT_TABLE_CONTEXT s) as [|t ctx]; [done|].
  destruct (tables s !! t) as [tb|]; [|done].
  by destruct (dict_get pname (t_fields tb)).
Qed.

Lemma DerivedField_tables pname expression lname s :
  tables (DerivedField pname expression lname s).1
  = tables (BaseField pname lname (KDerived None None) s).1.
Proof.
  unfold DerivedField.
  destruct (BaseField pname lname (KDerived None None) s) as [s1 [f|e]];
    simpl; [|done].
  destruct (_ ≫= _); simpl; by rewrite !update_field_tables.
Qed.

Lemma DerivedField_context pname expression lname s :
  CURRENT_TABLE_CONTEXT (DerivedField pname expression lname s).1
  = CURRENT_TABLE_CONTEXT s.
Proof.
  rewrite <- (BaseField_context pname lname (KDerived None None) s).
  unfold DerivedField.
  destruct (BaseField pname lname (KDerived None None) s) as [s1 [f|e]];
    simpl; [|done].
  destruct (_ ≫= _); simpl; by rewrite !update_field_context.
Qed.

(** ** Field names are unique within a table *)

Lemma getitem_found s t tb key f :
  tables s !! t = Some tb → dict_get key (t_fields tb) = Some f →
  __getitem__ s t key = Ok (VField f).
Proof.
  intros Ht Hf. unfold __getitem__, lookup_table. rewrite Ht; simpl.
  by rewrite Hf.
Qed.

Lemma getitem_inv s t key v :
  __getitem__ s t key = Ok v →
  ∃ tb f, tables s !! t = Some tb ∧ dict_get key (t_fields tb) = Some f ∧
          v = VField f.
Proof.
  unfold __getitem__, lookup_table.
  destruct (tables s !! t) as [tb|]; [|done].
  cbn [of_option mbind result_bind].
  destruct (dict_get key (t_fields tb)) as [f|] eqn:Hf; [|done].
  intros [= <-]. by exists tb, f.
Qed.

Lemma BaseField_duplicate pname lname kind s t rest tb f :
  CURRENT_TABLE_CONTEXT s = t :: rest →
  tables s !! t = Some tb →
  dict_get pname (t_fields tb) = Some f →
  BaseField pname lname kind s =
  (mkState (tables s)
     (fields s ++ [mkField pname (default_to pname lname) None kind])
     (CURRENT_TABLE_CONTEXT s),
   Raise (DuplicatedFieldException t (length (fields s)))).
Proof.
  intros Hctx Ht Hf. rewrite BaseField_cases; simpl.
  by rewrite Hctx, Ht, Hf.
Qed.

(** C4: while the scope of table [t] is open and [t] already holds a
    field [f] under the name [N], constructing another field named [N],
    source or derived, raises [DuplicatedFieldException] for [t] and the
    new object; afterwards the tables are as before, [t[N]] is still [f]
    and the object [f] is unchanged. *)
Theorem duplicate_field s t rest tb N f fd lname expression :
  CURRENT_TABLE_CONTEXT s = t :: rest →
  tables s !! t = Some tb →
  dict_get N (t_fields tb) = Some f →
  fields s !! f = Some fd →
  ∀ s' r,
    (s', r) = RawField N lname s ∨ (s', r) = DerivedField N expression lname s →
    r = Raise (DuplicatedFieldException t (length (fields s))) ∧
    tables s' = tables s ∧
    __getitem__ s' t N = Ok (VField f) ∧
    fields s' !! f = Some fd.
Proof.
  intros Hctx Ht Hf Hfd s' r Hcall.
  assert (Hbase : ∀ kind, (s', r) = BaseField N lname kind s →
    r = Raise (DuplicatedFieldException t (length (fields s))) ∧
    tables s' = tables s ∧
    __getitem__ s' t N = Ok (VField f) ∧
    fields s' !! f = Some fd).
  { intros kind. rewrite (BaseField_duplicate _ _ _ _ _ _ _ _ Hctx Ht Hf).
    intros [= -> ->]. repeat split.
    - by apply (getitem_found _ _ tb).
    - simpl. by apply lookup_grown. }
  destruct Hcall as [Hraw | Hder].
  - by apply (Hbase KRaw).
  - apply (Hbase (KDerived None None)). rewrite Hder.
    apply (DerivedField_not_registered _ _ _ _
             (DuplicatedFieldException t (length (fields s)))).
    by rewrite (BaseField_duplicate _ _ _ _ _ _ _ _ Hctx Ht Hf).
Qed.

Lemma duplicate_field_witness :
  (RawField "id" (Some "again") open_a).2
    = Raise (DuplicatedFieldException 0 1) ∧
  __getitem__ (RawField "id" (Some "again") open_a).1 0 "id" = Ok (VField 0).
Proof.
  destruct (duplicate_field open_a 0 []
              (mkTable "schema" "a" "a" "a" [("id", 0)] None) "id" 0
              (mkField "id" "id" (Some 0) KRaw) (Some "again") "{a.id}"
              eq_refl eq_refl eq_refl eq_refl
              (RawField "id" (Some "again") open_a).1
              (RawField "id" (Some "again") open_a).2)
    as (Hr & _ & Hget & _).
  - left. reflexivity.
  - split; [exact Hr | exact Hget].
Defined.

(** ** The builder context *)

Lemma list_remove_length x l : (length (list_remove x l) ≤ length l)%nat.
Proof.
  induction l as [|y l IH]; simpl; [lia|].
  destruct (Nat.eqb y x); simpl; lia.
Qed.

Lemma enter_occupied t s :
  CURRENT_TABLE_CONTEXT s ≠ [] → __enter__ t s = (s, Raise RuntimeError).
Proof.
  intros H. unfold __enter__.
  destruct (CURRENT_TABLE_CONTEXT s); [done | reflexivity].
Qed.

Lemma enter_empty t s :
  CURRENT_TABLE_CONTEXT s = [] →
  __enter__ t s = (mkState (tables s) (fields s) [t], Ok ()).
Proof. intros H. unfold __enter__. by rewrite H. Qed.

Lemma DerivedTable_context schema pname sources from_expression lname alias s :
  CURRENT_TABLE_CONTEXT
    (DerivedTable schema pname sources from_expression lname alias s).1
  = CURRENT_TABLE_CONTEXT s.
Proof. unfold DerivedTable. by destruct (_process_sources s sources ∅). Qed.

Lemma groupby_context t keys s :
  CURRENT_TABLE_CONTEXT (groupby t keys s).1 = CURRENT_TABLE_CONTEXT s.
Proof.
  unfold groupby. by destruct (derived_method s t "groupby") as [[tb d]|].
Qed.

Lemma exec_depth o s :
  (length (CURRENT_TABLE_CONTEXT s) ≤ 1)%nat →
  (length (CURRENT_TABLE_CONTEXT (exec o s)) ≤ 1)%nat.
Proof.
  intros H. destruct o; simpl.
  - done.
  - by rewrite DerivedTable_context.
  - unfold __enter__.
    destruct (CURRENT_TABLE_CONTEXT s) eqn:Hctx; simpl; [lia|].
    by rewrite Hctx.
  - unfold __exit__.
    destruct (existsb _ _); simpl; [|done].
    pose proof (list_remove_length t (CURRENT_TABLE_CONTEXT s)). lia.
  - unfold RawField. by rewrite BaseField_context.
  - by rewrite DerivedField_context.
  - by rewrite groupby_context.
Qed.

Lemma reachable_depth s :
  reachable s → (length (CURRENT_TABLE_CONTEXT s) ≤ 1)%nat.
Proof.
  induction 1 as [|s o _ IH]; [simpl; lia | by apply exec_depth].
Qed.

Lemma reachable_run ops : reachable (run ops initial).
Proof.
  unfold run. generalize initial, reachable_initial.
  induction ops as [|o ops IH]; intros s Hs; simpl; [done|].
  apply IH. by constructor.
Qed.

(** C6: [CURRENT_TABLE_CONTEXT] never holds more than one table.  It is
    empty at the start; every operation keeps its length at most one, so
    every reachable state has at most one open scope; [__enter__] on an
    occupied context raises [RuntimeError] and changes nothing, on an
    empty one it makes its table the only entry; and after a successful
    [__exit__] in a reachable state the context is empty again. *)
Theorem context_depth :
  CURRENT_TABLE_CONTEXT initial = [] ∧
  (∀ s o, (length (CURRENT_TABLE_CONTEXT s) ≤ 1)%nat →
          (length (CURRENT_TABLE_CONTEXT (exec o s)) ≤ 1)%nat) ∧
  (∀ s, reachable s → (length (CURRENT_TABLE_CONTEXT s) ≤ 1)%nat) ∧
  (∀ s t, CURRENT_TABLE_CONTEXT s ≠ [] →
          __enter__ t s = (s, Raise RuntimeError)) ∧
  (∀ s t, CURRENT_TABLE_CONTEXT s = [] →
          (__enter__ t s).2 = Ok () ∧
          CURRENT_TABLE_CONTEXT (__enter__ t s).1 = [t]) ∧
  (∀ s t, reachable s → (__exit__ t s).2 = Ok () →
          CURRENT_TABLE_CONTEXT s = [t] ∧
          CURRENT_TABLE_CONTEXT (__exit__ t s).1 = []).
Proof.
  split; [done|]. split; [intros; by apply exec_depth|].
  split; [apply reachable_depth|]. split; [intros; by apply enter_occupied|].
  split.
  - intros s t H. by rewrite enter_empty.
  - intros s t Hs%reachable_depth. unfold __exit__.
    destruct (CURRENT_TABLE_CONTEXT s) as [|x [|y ctx]] eqn:Hctx;
      simpl in *; [done | | lia].
    rewrite orb_false_r.
    destruct (t =? x)%nat eqn:Htx; simpl; [|done].
    apply Nat.eqb_eq in Htx. subst x. rewrite Nat.eqb_refl. done.
Qed.

Lemma context_depth_witness :
  (length (CURRENT_TABLE_CONTEXT (exec (Enter 1) open_a)) ≤ 1)%nat ∧
  __enter__ 1 open_a = (open_a, Raise RuntimeError) ∧
  CURRENT_TABLE_CONTEXT (__exit__ 0 open_a).1 = [].
Proof.
  destruct context_depth as (_ & Hexec & Hreach & Henter & _ & Hexit).
  split; [|split].
  - apply Hexec. vm_compute. lia.
  - apply Henter. vm_compute. discriminate.
  - apply (Hexit open_a 0); [apply reachable_run | reflexivity].
Defined.

(** ** A failed resolution leaves the field registered *)

Lemma dict_get_app {V} key (d d' : list (string * V)) :
  dict_get key (d ++ d') =
  match dict_get key d with Some v => Some v | None => dict_get key d' end.
Proof.
  induction d as [|[k v] d IH]; simpl; [done|].
  by destruct (String.eqb k key).
Qed.

Lemma dict_get_registered tb pname f :
  dict_get pname (t_fields tb) = None →
  dict_get pname (t_fields (registered tb pname f)) = Some f.
Proof.
  intros H. simpl. rewrite dict_get_app, H. simpl.
  by rewrite String.eqb_refl.
Qed.

Lemma BaseField_registers pname lname kind s t rest tb :
  CURRENT_TABLE_CONTEXT s = t :: rest →
  tables s !! t = Some tb →
  dict_get pname (t_fields tb) = None →
  BaseField pname lname kind s =
  (mkState (<[t := registered tb pname (length (fields s))]> (tables s))
     (fields s ++ [mkField pname (default_to pname lname) (Some t) kind])
     (CURRENT_TABLE_CONTEXT s),
   Ok (length (fields s))).
Proof.
  intros Hctx Ht Hf. rewrite BaseField_cases; simpl.
  by rewrite Hctx, Ht, Hf.
Qed.

Lemma DerivedField_duplicate pname expression lname s t rest tb f :
  CURRENT_TABLE_CONTEXT s = t :: rest →
  tables s !! t = Some tb →
  dict_get pname (t_fields tb) = Some f →
  (DerivedField pname expression lname s).2
  = Raise (DuplicatedFieldException t (length (fields s))).
Proof.
  intros Hctx Ht Hf.
  rewrite (DerivedField_not_registered _ _ _ _
             (DuplicatedFieldException t (length (fields s))));
    by rewrite (BaseField_duplicate _ _ _ _ _ _ _ _ Hctx Ht Hf).
Qed.

(** C9: in the open scope of table [t], which has no field named
    [pname] yet, a [DerivedField] construction that raises, whatever the
    exception, has already put the new object into [t]'s field mapping:
    [t[pname]] is the new object, and constructing another field named
    [pname] in the same scope raises [DuplicatedFieldException]. *)
Theorem failed_field_stays_registered s t rest tb pname expression lname e s' :
  CURRENT_TABLE_CONTEXT s = t :: rest →
  tables s !! t = Some tb →
  dict_get pname (t_fields tb) = None →
  DerivedField pname expression lname s = (s', Raise e) →
  __getitem__ s' t pname = Ok (VField (length (fields s))) ∧
  ∀ lname' expression',
    (RawField pname lname' s').2
      = Raise (DuplicatedFieldException t (length (fields s'))) ∧
    (DerivedField pname expression' lname' s').2
      = Raise (DuplicatedFieldException t (length (fields s'))).
Proof.
  intros Hctx Ht Hfresh Hfail.
  assert (Hlt : (t < length (tables s))%nat) by by eapply lookup_lt_Some.
  assert (Htables : tables s' !! t
                    = Some (registered tb pname (length (fields s)))).
  { replace s' with (DerivedField pname expression lname s).1
      by by rewrite Hfail.
    rewrite DerivedField_tables,
      (BaseField_registers _ _ _ _ _ _ _ Hctx Ht Hfresh); simpl.
    by apply list_lookup_insert_eq. }
  assert (Hctx' : CURRENT_TABLE_CONTEXT s' = t :: rest).
  { replace s' with (DerivedField pname expression lname s).1
      by by rewrite Hfail.
    by rewrite DerivedField_context. }
  pose proof (dict_get_registered tb pname (length (fields s)) Hfresh) as Hreg.
  split.
  - by apply (getitem_found _ _ _ _ _ Htables).
  - intros lname' expression'. split.
    + unfold RawField.
      by rewrite (BaseField_duplicate _ _ _ _ _ _ _ _ Hctx' Htables Hreg).
    + by apply (DerivedField_duplicate _ _ _ _ _ _ _ _ Hctx' Htables Hreg).
Qed.

Lemma failed_field_stays_registered_witness :
  DerivedField "x" "{z.id}" None open_b
    = ((DerivedField "x" "{z.id}" None open_b).1, Raise (KeyError "z")) ∧
  __getitem__ (DerivedField "x" "{z.id}" None open_b).1 1 "x"
    = Ok (VField 2) ∧
  (DerivedField "x" "{a.id}" None (DerivedField "x" "{z.id}" None open_b).1).2
    = Raise (DuplicatedFieldException 1 3).
Proof.
  assert (Hfail : DerivedField "x" "{z.id}" None open_b
    = ((DerivedField "x" "{z.id}" None open_b).1, Raise (KeyError "z")))
    by (vm_compute; reflexivity).
  destruct (failed_field_stays_registered open_b 1 []
              (mkTable "schema" "b" "b" "b" []
                 (Some (mkDerived ∅ {["a" := 0]} "{a}")))
              "x" "{z.id}" None (KeyError "z") _
              eq_refl eq_refl eq_refl Hfail) as [Hget Hdup].
  split; [exact Hfail|]. split; [exact Hget|].
  exact (proj2 (Hdup None "{a.id}")).
Defined.

(** ** Facts about the parser of format strings *)

Lemma append_cons c a b : String c a +:+ b = String c (a +:+ b).
Proof. reflexivity. Qed.

Lemma append_nil_l b : "" +:+ b = b.
Proof. reflexivity. Qed.

Lemma append_empty_r a : a +:+ "" = a.
Proof. induction a as [|c a IH]; [done|]. by rewrite append_cons, IH. Qed.

Lemma append_assoc a b c : (a +:+ b) +:+ c = a +:+ (b +:+ c).
Proof.
  induction a as [|x a IH]; [done|]. by rewrite !append_cons, IH.
Qed.

Lemma append_snoc a c b : snoc a c +:+ b = a +:+ String c b.
Proof. unfold snoc. by rewrite append_assoc. Qed.

(** Text without braces is taken into the pending literal. *)
Lemma parser_literal lit : ∀ acc rest,
  no_braces lit = true →
  formatter_parser_from (InLiteral acc) (lit +:+ rest)
  = formatter_parser_from (InLiteral (acc +:+ lit)) rest.
Proof.
  induction lit as [|c lit IH]; intros acc rest H.
  - by rewrite append_nil_l, append_empty_r.
  - cbn [no_braces] in H. apply andb_prop in H as [[H1 H2]%andb_prop H3].
    apply negb_true_iff in H1, H2.
    rewrite append_cons. cbn [formatter_parser_from]. rewrite H1, H2.
    rewrite IH by done. by rewrite append_snoc.
Qed.

Lemma parser_plain_text e :
  no_braces e = true →
  formatter_parser e = (if is_empty e then [] else [(e, None)], None).
Proof.
  intros H. unfold formatter_parser.
  rewrite <- (append_empty_r e) at 1. rewrite parser_literal by done.
  reflexivity.
Qed.

Lemma field_char_spec c :
  field_char c = true →
  Ascii.eqb c "{" = false ∧ Ascii.eqb c "}" = false ∧
  Ascii.eqb c "[" = false ∧ Ascii.eqb c "]" = false ∧
  Ascii.eqb c ":" = false ∧ Ascii.eqb c "!" = false.
Proof.
  unfold field_char. cbn [existsb]. intros H%negb_true_iff.
  repeat (apply orb_false_elim in H as [? H]). done.
Qed.

(** A field name up to its closing brace becomes one field. *)
Lemma parser_name name : ∀ lit acc rest,
  dotted_name name = true →
  formatter_parser_from (InName lit acc) (name +:+ String "}" rest)
  = emit (lit, Some (ReplField (acc +:+ name) "" None))
      (formatter_parser_from (InLiteral "") rest).
Proof.
  induction name as [|c name IH]; intros lit acc rest H.
  - rewrite append_nil_l, append_empty_r. cbn [formatter_parser_from].
    reflexivity.
  - cbn [dotted_name] in H. apply andb_prop in H as [Hc H].
    apply field_char_spec in Hc as (H1 & H2 & H3 & H4 & H5 & H6).
    rewrite append_cons. cbn [formatter_parser_from].
    rewrite H1, H2, H3, H5, H6.
    rewrite IH by done. by rewrite append_snoc.
Qed.

Lemma parser_open name lit rest :
  dotted_name name = true →
  formatter_parser_from (InLiteral lit) (String "{" (name +:+ String "}" rest))
  = emit (lit, Some (ReplField name "" None))
      (formatter_parser_from (InLiteral "") rest).
Proof.
  intros H. pose proof (parser_name name lit "" rest H) as Hname.
  rewrite append_nil_l in Hname. rewrite <- Hname. clear Hname.
  destruct name as [|c name]; [reflexivity|].
  cbn [dotted_name] in H. apply andb_prop in H as [Hc _].
  apply field_char_spec in Hc as (H1 & _).
  rewrite append_cons. cbn [formatter_parser_from]. by rewrite H1.
Qed.

(** A placeholder after plain text: the first tuple of the parse. *)
Lemma parser_placeholder lit name rest :
  no_braces lit = true → dotted_name name = true →
  formatter_parser (lit +:+ String "{" (name +:+ String "}" rest))
  = emit (lit, Some (ReplField name "" None)) (formatter_parser rest).
Proof.
  intros Hlit Hname. unfold formatter_parser.
  rewrite parser_literal by done. rewrite append_nil_l.
  by apply parser_open.
Qed.

(** ** What [DerivedField.__init__] does once the field is registered *)

Lemma update_field_last g tbls flds fd ctx :
  update_field (length flds) g (mkState tbls (flds ++ [fd]) ctx)
  = mkState tbls (flds ++ [g fd]) ctx.
Proof.
  unfold update_field. cbn [fields tables CURRENT_TABLE_CONTEXT].
  by rewrite lookup_last, insert_last.
Qed.

Lemma owner_sources_last tbls flds fd ctx t :
  f_table fd = Some t →
  owner_sources (mkState tbls (flds ++ [fd]) ctx) (length flds)
  = table_sources (mkState tbls (flds ++ [fd]) ctx) t.
Proof.
  intros H. unfold owner_sources, lookup_field. cbn [fields].
  rewrite lookup_last. cbn [of_option mbind result_bind]. by rewrite H.
Qed.

Lemma DerivedField_registers pname expression lname s t rest tb :
  CURRENT_TABLE_CONTEXT s = t :: rest →
  tables s !! t = Some tb →
  dict_get pname (t_fields tb) = None →
  DerivedField pname expression lname s =
  let self := length (fields s) in
  let store kind :=
    mkState (<[t := registered tb pname self]> (tables s))
      (fields s ++ [mkField pname (default_to pname lname) (Some t) kind])
      (CURRENT_TABLE_CONTEXT s) in
  let s2 := store (KDerived (Some expression) None) in
  match ctx ← table_sources s2 t; get_fields_from_expr s2 expression ctx with
  | Raise e => (s2, Raise e)
  | Ok srcs => (store (KDerived (Some expression) (Some srcs)), Ok self)
  end.
Proof.
  intros Hctx Ht Hfresh. unfold DerivedField.
  rewrite (BaseField_registers _ _ _ _ _ _ _ Hctx Ht Hfresh).
  cbn zeta. rewrite update_field_last.
  cbn [set_expression f_pname f_lname f_table f_kind].
  rewrite (owner_sources_last _ _ _ _ t) by reflexivity.
  destruct (_ ≫= _) as [srcs|e]; [|reflexivity].
  rewrite update_field_last. reflexivity.
Qed.

Lemma table_sources_derived s t tb d :
  tables s !! t = Some tb → t_derived tb = Some d →
  table_sources s t = Ok (CtxMapping (d_sources d)).
Proof.
  intros Ht Hd. unfold table_sources, lookup_table. rewrite Ht.
  cbn [of_option mbind result_bind]. by rewrite Hd.
Qed.

Lemma get_fields_plain_text s e ctx :
  no_braces e = true → get_fields_from_expr s e ctx = Ok ∅.
Proof.
  intros H. unfold get_fields_from_expr. rewrite parser_plain_text by done.
  by destruct (is_empty e).
Qed.

(** ** Expressions without placeholders *)

Section Constant.
Variable set_order : gset pyval → list pyval.
Hypothesis set_order_perm : ∀ X, set_order X ≡ₚ elements X.

Lemma set_order_empty : set_order ∅ = [].
Proof.
  apply Permutation_nil_r. rewrite (set_order_perm ∅).
  by rewrite elements_empty.
Qed.

(** C10: in the open scope of a derived table without a field named
    [pname], a [DerivedField] whose expression has no brace is
    constructed without error; its direct sources are the empty set
    and so is its lineage, which is not the set holding the field
    itself. *)
Theorem constant_expression s t rest tb d pname expression lname :
  CURRENT_TABLE_CONTEXT s = t :: rest →
  tables s !! t = Some tb →
  t_derived tb = Some d →
  dict_get pname (t_fields tb) = None →
  no_braces expression = true →
  ∃ s', DerivedField pname expression lname s = (s', Ok (length (fields s))) ∧
        get_sources s' (length (fields s)) = Ok ∅ ∧
        get_lineage set_order s' (length (fields s)) = Ok ∅ ∧
        get_lineage set_order s' (length (fields s))
          ≠ Ok {[VField (length (fields s))]}.
Proof.
  intros Hctx Ht Hd Hfresh Hplain.
  assert (Hlt : (t < length (tables s))%nat) by by eapply lookup_lt_Some.
  rewrite (DerivedField_registers _ _ _ _ _ _ _ Hctx Ht Hfresh). cbn zeta.
  rewrite (table_sources_derived _ t (registered tb pname (length (fields s))) d);
    [| by apply list_lookup_insert_eq | done].
  cbn [mbind result_bind]. rewrite get_fields_plain_text by done.
  eexists. split; [reflexivity|].
  match goal with
  | |- _ ∧ ?l = Ok ∅ ∧ _ => assert (Hlineage : l = Ok ∅)
  end.
  { unfold get_lineage. cbn [fields]. rewrite length_app, Nat.add_1_r.
    cbn [get_lineage_at]. unfold lookup_field. cbn [fields].
    rewrite lookup_last. cbn [of_option mbind result_bind f_kind].
    by rewrite set_order_empty. }
  split; [|split; [exact Hlineage|]].
  - unfold get_sources, lookup_field. cbn [fields].
    by rewrite lookup_last.
  - rewrite Hlineage. intros [= Hempty].
Qed.
End Constant.

(** The order of [elements] is one admissible iteration order. *)
Lemma elements_order (X : gset pyval) : elements X ≡ₚ elements X.
Proof. reflexivity. Qed.

Lemma constant_expression_witness :
  ∃ s', DerivedField "one" "1" None open_b = (s', Ok 2) ∧
        get_sources s' 2 = Ok ∅ ∧
        get_lineage elements s' 2 = Ok ∅ ∧
        get_lineage elements s' 2 ≠ Ok {[VField 2]}.
Proof.
  exact (constant_expression elements elements_order open_b 1 []
           (mkTable "schema" "b" "b" "b" []
              (Some (mkDerived ∅ {["a" := 0]} "{a}")))
           (mkDerived ∅ {["a" := 0]} "{a}") "one" "1" None
           eq_refl eq_refl eq_refl eq_refl eq_refl).
Defined.

(** ** The invariants hold in every reachable state *)

Lemma dict_get_elem {V} key (d : list (string * V)) v :
  dict_get key d = Some v → (key, v) ∈ d.
Proof.
  induction d as [|[k w] d IH]; simpl; [done|].
  destruct (String.eqb k key) eqn:Hk.
  - apply String.eqb_eq in Hk. intros [= ->]. subst. left.
  - intros H. right. by apply IH.
Qed.

Lemma wf_new_field s fd :
  wf s → (∀ e X, f_kind fd ≠ KDerived e (Some X)) →
  wf (mkState (tables s) (fields s ++ [fd]) (CURRENT_TABLE_CONTEXT s)).
Proof.
  intros [Hd Ho Hs Hl] Hkind. split; simpl; [done| | done |].
  - intros t tb n f Ht Hin.
    destruct (Ho t tb n f Ht Hin) as (fd' & Hf & Hrest).
    exists fd'. split; [by apply lookup_grown | done].
  - intros f fd' e X g Hf Hk Hg.
    apply lookup_app_Some in Hf as [Hf | [Hlen Hf]].
    + by eapply Hl.
    + apply list_lookup_singleton_Some in Hf as [_ <-]. by destruct (Hkind e X).
Qed.

Lemma wf_registered s t tb pname lname kind :
  wf s → tables s !! t = Some tb →
  (∀ e X g, kind = KDerived e (Some X) → VField g ∈ X →
            (g < length (fields s))%nat) →
  wf (mkState (<[t := registered tb pname (length (fields s))]> (tables s))
        (fields s ++ [mkField pname lname (Some t) kind])
        (CURRENT_TABLE_CONTEXT s)).
Proof.
  intros [Hd Ho Hs Hl] Ht Hkind.
  assert (Hlt : (t < length (tables s))%nat) by by eapply lookup_lt_Some.
  split; unfold fields_owned, sources_older, lineage_older;
    cbn [tables fields CURRENT_TABLE_CONTEXT]; [done| | |].
  - intros t' tb' n f Ht' Hin.
    destruct (decide (t' = t)) as [->|Hne].
    + rewrite list_lookup_insert_eq in Ht' by done.
      injection Ht' as <-. simpl in Hin.
      apply elem_of_app in Hin as [Hin | Hin].
      * destruct (Ho t tb n f Ht Hin) as (fd' & Hf & Hrest).
        exists fd'. split; [by apply lookup_grown | done].
      * apply list_elem_of_singleton in Hin. injection Hin as -> ->.
        eexists. split; [apply lookup_last | done].
    + rewrite list_lookup_insert_ne in Ht' by done.
      destruct (Ho t' tb' n f Ht' Hin) as (fd' & Hf & Hrest).
      exists fd'. split; [by apply lookup_grown | done].
  - intros t' tb' d a src Ht' Hd' Hsrc.
    assert (∃ tb0, tables s !! t' = Some tb0 ∧ t_derived tb0 = Some d)
      as (tb0 & Ht0 & Hd0).
    { destruct (decide (t' = t)) as [->|Hne].
      - rewrite list_lookup_insert_eq in Ht' by done.
        injection Ht' as <-. by exists tb.
      - rewrite list_lookup_insert_ne in Ht' by done. by exists tb'. }
    destruct (Hs t' tb0 d a src Ht0 Hd0 Hsrc) as (Hlt' & stb & Hstb & Halias).
    split; [done|].
    destruct (decide (src = t)) as [->|Hne].
    + rewrite list_lookup_insert_eq by done. eexists. split; [done|].
      simpl. congruence.
    + rewrite list_lookup_insert_ne by done. by exists stb.
  - intros f fd' e X g Hf Hk Hg.
    apply lookup_app_Some in Hf as [Hf | [Hlen Hf]].
    + by eapply Hl.
    + apply list_lookup_singleton_Some in Hf as [Hi <-]. simpl in Hk.
      pose proof (Hkind e X g Hk Hg). lia.
Qed.

(** What a placeholder resolves to comes from a source table. *)

Lemma getitem_foreign s t t' key v :
  t' ≠ t → __getitem__ s t' key = Ok v → foreign s t v.
Proof.
  intros Hne. unfold __getitem__, lookup_table.
  destruct (tables s !! t') as [tb'|] eqn:Ht'; [|done].
  cbn [of_option mbind result_bind].
  destruct (dict_get key (t_fields tb')) as [f|] eqn:Hf; [|done].
  intros [= <-]. exists t', tb', key. by split; [|split; [|apply dict_get_elem]].
Qed.

Lemma table_getattr_foreign s t t' name v :
  t' ≠ t → table_getattr s t' name = Ok v → foreign s t v.
Proof.
  intros Hne. unfold table_getattr, lookup_table, __getattr__.
  destruct (tables s !! t') as [tb'|] eqn:Ht'; [|done].
  cbn [of_option mbind result_bind].
  repeat (match goal with
          | |- context [if ?b then _ else _] => destruct b
          | |- context [match t_derived ?x with _ => _ end] =>
              destruct (t_derived x)
          end;
          try done; try (by intros [= <-]);
          try (by apply getitem_foreign)).
Qed.

Lemma field_getattr_foreign s t g name v :
  fields_owned s → foreign s t (VField g) →
  field_getattr s g name = Ok v → foreign s t v.
Proof.
  intros Ho (t' & tb' & n & Hne & Ht' & Hin).
  destruct (Ho t' tb' n g Ht' Hin) as (fd & Hfd & Htable & _).
  unfold field_getattr, lookup_field. rewrite Hfd.
  cbn [of_option mbind result_bind]. rewrite Htable.
  repeat (match goal with
          | |- context [if ?b then _ else _] => destruct b
          | |- context [match f_kind ?x with _ => _ end] =>
              destruct (f_kind x) as [|[?|] [?|]]
          end;
          try done; try (by intros [= <-])).
Qed.

Lemma follow_foreign s t accs : ∀ obj err v,
  fields_owned s → foreign s t obj →
  follow s obj accs err = Ok v → foreign s t v.
Proof.
  induction accs as [|[name|key] accs IH]; intros obj err v Ho Hobj; simpl.
  - destruct err; [done|]. by intros [= <-].
  - destruct (py_getattr s obj name) as [obj'|] eqn:Hget; [|done].
    cbn [mbind result_bind]. apply IH; [done|].
    destruct obj as [x|t'|g]; simpl in Hget; [done| |].
    + by eapply table_getattr_foreign.
    + by eapply field_getattr_foreign.
  - destruct (py_getitem s obj key) as [obj'|] eqn:Hget; [|done].
    cbn [mbind result_bind]. apply IH; [done|].
    destruct obj as [x|t'|g]; simpl in Hget.
    + by destruct (is_index key).
    + destruct (is_index key); [done|]. by eapply getitem_foreign.
    + done.
Qed.

Lemma get_field_foreign s t ctx name v :
  fields_owned s → foreign_context t ctx →
  get_field s name ctx = Ok v → foreign s t v.
Proof.
  intros Ho Hctx. unfold get_field.
  destruct (formatter_field_name_split name) as [first [accs err]].
  destruct (get_value first ctx) as [obj|] eqn:Hval; [|done].
  cbn [mbind result_bind]. apply follow_foreign; [done|].
  unfold get_value in Hval. destruct (is_index first); [done|].
  destruct ctx as [m|f]; [|done].
  destruct (m !! first) as [src|] eqn:Hsrc; [|done].
  injection Hval as <-. simpl. by eapply Hctx.
Qed.

Lemma collect_fields_foreign s t ctx items : ∀ err acc X,
  fields_owned s → foreign_context t ctx →
  (∀ v, v ∈ acc → foreign s t v) →
  collect_fields s ctx items err acc = Ok X →
  ∀ v, v ∈ X → foreign s t v.
Proof.
  induction items as [|[lit [rf|]] items IH]; intros err acc X Ho Hctx Hacc;
    simpl.
  - destruct err; [done|]. by intros [= <-].
  - destruct (is_empty (rf_name rf)); [by apply IH|].
    destruct (get_field s (rf_name rf) ctx) as [fld|] eqn:Hfld; [|done].
    cbn [mbind result_bind]. apply IH; [done..|].
    intros v [Hv | ->%elem_of_singleton]%elem_of_union; [by apply Hacc|].
    by eapply get_field_foreign.
  - by apply IH.
Qed.

Lemma get_fields_foreign s t ctx e X :
  fields_owned s → foreign_context t ctx →
  get_fields_from_expr s e ctx = Ok X → ∀ v, v ∈ X → foreign s t v.
Proof.
  intros Ho Hctx. unfold get_fields_from_expr.
  destruct (formatter_parser e) as [items err].
  apply collect_fields_foreign; [done..|]. set_solver.
Qed.

Lemma table_sources_foreign s t ctx :
  sources_older s → table_sources s t = Ok ctx → foreign_context t ctx.
Proof.
  intros Hs. unfold table_sources, lookup_table.
  destruct (tables s !! t) as [tb|] eqn:Ht; [|done].
  cbn [of_option mbind result_bind].
  destruct (t_derived tb) as [d|] eqn:Hd.
  - intros [= <-] a src Hsrc.
    destruct (Hs t tb d a src Ht Hd Hsrc) as [Hlt _]. lia.
  - destruct (__getattr__ s t "_sources") as [[x|t'|f]|]; try done.
    by intros [= <-].
Qed.

Lemma wf_RawField pname lname kind s :
  (∀ e X, kind ≠ KDerived e (Some X)) →
  wf s → wf (BaseField pname lname kind s).1.
Proof.
  intros Hkind Hwf. rewrite BaseField_cases. cbn zeta.
  destruct (CURRENT_TABLE_CONTEXT s) as [|t ctx] eqn:Hctx.
  { rewrite <- Hctx. by apply wf_new_field. }
  destruct (tables s !! t) as [tb|] eqn:Ht.
  2: { rewrite <- Hctx. by apply wf_new_field. }
  destruct (dict_get pname (t_fields tb)).
  { rewrite <- Hctx. by apply wf_new_field. }
  rewrite <- Hctx. apply wf_registered; [done..|].
  intros e X g ->. by destruct (Hkind e X).
Qed.

Lemma wf_DerivedField pname expression lname s :
  wf s → wf (DerivedField pname expression lname s).1.
Proof.
  intros Hwf.
  destruct (BaseField pname lname (KDerived None None) s) as [s1 [self|e]]
    eqn:Hbase.
  2: { rewrite (DerivedField_not_registered _ _ _ _ e) by by rewrite Hbase.
       by apply wf_RawField. }
  rewrite BaseField_cases in Hbase. cbn zeta in Hbase.
  destruct (CURRENT_TABLE_CONTEXT s) as [|t ctx] eqn:Hctx; [done|].
  destruct (tables s !! t) as [tb|] eqn:Ht; [|done].
  destruct (dict_get pname (t_fields tb)) eqn:Hfresh; [done|].
  clear Hbase.
  rewrite (DerivedField_registers _ _ _ _ _ _ _ Hctx Ht Hfresh). cbn zeta.
  pose proof (wf_registered s t tb pname (default_to pname lname)
                (KDerived (Some expression) None) Hwf Ht) as Hwf2.
  destruct (_ ≫= _) as [srcs|e] eqn:Hres.
  2: { apply Hwf2. intros e' X g [= _ ?]. }
  cbn [fst]. apply wf_registered; [done..|].
  intros e' X g [= _ <-] Hg.
  assert (wf (mkState (<[t := registered tb pname (length (fields s))]> (tables s))
           (fields s ++ [mkField pname (default_to pname lname) (Some t)
                          (KDerived (Some expression) None)])
           (CURRENT_TABLE_CONTEXT s))) as [_ Ho2 Hs2 _].
  { apply Hwf2. intros e0 X0 g0 [= _ ?]. }
  destruct (table_sources _ t) as [c|] eqn:Hc; [|done].
  cbn [mbind result_bind] in Hres.
  pose proof (table_sources_foreign _ _ _ Hs2 Hc) as Hfc.
  pose proof (get_fields_foreign _ t _ _ _ Ho2 Hfc Hres _ Hg)
    as (t' & tb' & n & Hne & Ht' & Hin).
  destruct (Ho2 t' tb' n g Ht' Hin) as (fd & Hfd & Htable & _).
  cbn [fields] in Hfd.
  apply lookup_app_Some in Hfd as [Hfd | [Hlen Hfd]].
  - by eapply lookup_lt_Some.
  - apply list_lookup_singleton_Some in Hfd as [_ <-]. simpl in Htable.
    congruence.
Qed.

Lemma process_sources_keyed s sources : ∀ acc m a src,
  _process_sources s sources acc = Ok m → m !! a = Some src →
  acc !! a = Some src ∨ ∃ stb, tables s !! src = Some stb ∧ t_alias stb = a.
Proof.
  induction sources as [|t sources IH]; intros acc m a src; simpl.
  - intros [= <-]. by left.
  - unfold lookup_table.
    destruct (tables s !! t) as [tb|] eqn:Ht; [|done].
    cbn [of_option mbind result_bind]. intros Hm Ha.
    destruct (IH _ _ _ _ Hm Ha) as [Hacc | ?]; [|by right].
    apply lookup_insert_Some in Hacc as [[<- <-] | [_ Hacc]];
      [right; by exists tb | by left].
Qed.

Lemma wf_new_table s tb :
  wf s → t_fields tb = [] →
  (∀ d a src, t_derived tb = Some d → d_sources d !! a = Some src →
              ∃ stb, tables s !! src = Some stb ∧ t_alias stb = a) →
  wf (mkState (tables s ++ [tb]) (fields s) (CURRENT_TABLE_CONTEXT s)).
Proof.
  intros [Hd Ho Hs Hl] Hempty Hnew.
  split; unfold fields_owned, sources_older, lineage_older;
    cbn [tables fields CURRENT_TABLE_CONTEXT]; [done| | |done].
  - intros t tb' n f Ht Hin.
    apply lookup_app_Some in Ht as [Ht | [_ Ht]]; [by eapply Ho|].
    apply list_lookup_singleton_Some in Ht as [_ <-].
    rewrite Hempty in Hin. by apply elem_of_nil in Hin.
  - intros t tb' d a src Ht Hd' Hsrc.
    apply lookup_app_Some in Ht as [Ht | [Hlen Ht]].
    + destruct (Hs t tb' d a src Ht Hd' Hsrc) as (Hlt & stb & Hstb & Ha).
      split; [done|]. exists stb. split; [by apply lookup_grown | done].
    + apply list_lookup_singleton_Some in Ht as [_ <-].
      destruct (Hnew d a src Hd' Hsrc) as (stb & Hstb & Ha).
      split; [apply lookup_lt_Some in Hstb; lia|].
      exists stb. split; [by apply lookup_grown | done].
Qed.

Lemma wf_DerivedTable schema pname sources from_expression lname alias s :
  wf s →
  wf (DerivedTable schema pname sources from_expression lname alias s).1.
Proof.
  intros Hwf. unfold DerivedTable.
  destruct (_process_sources s sources ∅) as [m|] eqn:Hm; [|done].
  apply wf_new_table; [done..|].
  intros d a src [= <-] Hsrc. simpl in Hsrc.
  by destruct (process_sources_keyed _ _ _ _ _ _ Hm Hsrc) as [?|?].
Qed.

Lemma wf_groupby t keys s : wf s → wf (groupby t keys s).1.
Proof.
  intros [Hd Ho Hs Hl]. unfold groupby, derived_method, lookup_table.
  destruct (tables s !! t) as [tb|] eqn:Ht; [|done].
  cbn [of_option mbind result_bind].
  destruct (t_derived tb) as [d|] eqn:Hder.
  2: { by destruct (__getattr__ s t "groupby"). }
  assert (Hlt : (t < length (tables s))%nat) by by eapply lookup_lt_Some.
  split; unfold fields_owned, sources_older, lineage_older;
    cbn [fst tables fields CURRENT_TABLE_CONTEXT]; [done| | |done].
  - intros t' tb' n f Ht' Hin.
    destruct (decide (t' = t)) as [->|Hne].
    + rewrite list_lookup_insert_eq in Ht' by done. injection Ht' as <-.
      by eapply Ho.
    + rewrite list_lookup_insert_ne in Ht' by done. by eapply Ho.
  - intros t' tb' d' a src Ht' Hd' Hsrc.
    assert (∃ tb0 d0, tables s !! t' = Some tb0 ∧ t_derived tb0 = Some d0 ∧
                      d_sources d0 !! a = Some src) as (tb0 & d0 & Ht0 & Hd0 & Hs0).
    { destruct (decide (t' = t)) as [->|Hne].
      - rewrite list_lookup_insert_eq in Ht' by done. injection Ht' as <-.
        injection Hd' as <-. by exists tb, d.
      - rewrite list_lookup_insert_ne in Ht' by done. by exists tb', d'. }
    destruct (Hs t' tb0 d0 a src Ht0 Hd0 Hs0) as (Hlt' & stb & Hstb & Ha).
    split; [done|].
    destruct (decide (src = t)) as [->|Hne].
    + rewrite list_lookup_insert_eq by done. eexists. split; [done|].
      simpl. congruence.
    + rewrite list_lookup_insert_ne by done. by exists stb.
Qed.

Lemma wf_context s ctx :
  wf s → (length ctx ≤ 1)%nat → wf (mkState (tables s) (fields s) ctx).
Proof. intros [Hd Ho Hs Hl] Hlen. by split. Qed.

Lemma exec_wf o s : wf s → wf (exec o s).
Proof.
  intros Hwf. pose proof (exec_depth o s (wf_depth _ Hwf)) as Hdepth.
  destruct o; simpl in *.
  - by apply wf_new_table.
  - by apply wf_DerivedTable.
  - unfold __enter__ in *.
    destruct (0 <? length (CURRENT_TABLE_CONTEXT s))%nat; [done|].
    by apply wf_context.
  - unfold __exit__ in *.
    destruct (existsb _ _); [|done]. by apply wf_context.
  - by apply wf_RawField.
  - by apply wf_DerivedField.
  - by apply wf_groupby.
Qed.

Lemma reachable_wf s : reachable s → wf s.
Proof.
  induction 1 as [|s o _ IH]; [|by apply exec_wf].
  split; unfold fields_owned, sources_older, lineage_older; simpl;
    [lia | intros t tb n f Ht; by rewrite lookup_nil in Ht
         | intros t tb d a src Ht; by rewrite lookup_nil in Ht
         | intros f fd e X g Hf; by rewrite lookup_nil in Hf].
Qed.

(** ** Lineage *)

Lemma union_loop_ext c1 c2 l : ∀ acc,
  (∀ v, v ∈ l → c1 v = c2 v) → union_loop c1 l acc = union_loop c2 l acc.
Proof.
  induction l as [|v l IH]; intros acc H; simpl; [done|].
  rewrite <- (H v) by left. destruct (c1 v); [|done].
  cbn [mbind result_bind]. apply IH. intros w Hw. apply H. by right.
Qed.

Lemma union_loop_Raise c l : ∀ acc e,
  union_loop c l acc = Raise e → ∃ v, v ∈ l ∧ c v = Raise e.
Proof.
  induction l as [|v l IH]; intros acc e; simpl; [done|].
  destruct (c v) as [r|e'] eqn:Hv; cbn [mbind result_bind].
  - intros (w & Hw & Hc)%IH. exists w. split; [by right | done].
  - intros [= ->]. exists v. split; [left | done].
Qed.

Lemma union_loop_Ok c l : ∀ acc L,
  union_loop c l acc = Ok L →
  (∀ v, v ∈ l → ∃ r, c v = Ok r) ∧
  (∀ x, x ∈ L ↔ x ∈ acc ∨ ∃ v r, v ∈ l ∧ c v = Ok r ∧ x ∈ r).
Proof.
  induction l as [|v l IH]; intros acc L; simpl.
  - intros [= <-]. split; [by intros v ?%elem_of_nil|].
    intros x. split; [by left|]. intros [?|(v & r & ?%elem_of_nil & _)]; done.
  - destruct (c v) as [r|] eqn:Hv; [|done]. cbn [mbind result_bind].
    intros [Hall Hmem]%IH. split.
    + intros w [->|Hw]%elem_of_cons; [by exists r | by apply Hall].
    + intros x. rewrite Hmem, elem_of_union. split.
      * intros [[?|?] | (w & rw & Hw & Hcw & Hx)]; [by left | |].
        -- right. exists v, r. split; [left | done].
        -- right. exists w, rw. split; [by right | done].
      * intros [? | (w & rw & [->|Hw]%elem_of_cons & Hcw & Hx)].
        -- left. by left.
        -- left. right. congruence.
        -- right. by exists w, rw.
Qed.

Lemma union_loop_total c l : ∀ acc,
  (∀ v, v ∈ l → ∃ r, c v = Ok r) → ∃ L, union_loop c l acc = Ok L.
Proof.
  induction l as [|v l IH]; intros acc H; simpl; [by eexists|].
  destruct (H v) as [r ->]; [left|]. cbn [mbind result_bind].
  apply IH. intros w Hw. apply H. by right.
Qed.

Section Lineage.
Variable set_order : gset pyval → list pyval.
Hypothesis set_order_perm : ∀ X, set_order X ≡ₚ elements X.

Lemma in_set_order X v : v ∈ set_order X ↔ v ∈ X.
Proof. by rewrite (set_order_perm X), elem_of_elements. Qed.

(** With the sources older than the field, the depth bound does not
    matter once it exceeds the field's reference. *)
Lemma get_lineage_at_stable s :
  lineage_older s →
  ∀ f n m, (f < n)%nat → (f < m)%nat →
           get_lineage_at set_order n s f = get_lineage_at set_order m s f.
Proof.
  intros Hl f. induction (lt_wf f) as [f _ IH]. intros n m Hn Hm.
  destruct n as [|n]; [lia|]. destruct m as [|m]; [lia|]. simpl.
  unfold lookup_field. destruct (fields s !! f) as [fd|] eqn:Hf; [|done].
  cbn [of_option mbind result_bind].
  destruct (f_kind fd) as [|e [X|]] eqn:Hk; [done| |done].
  cbn [of_option mbind result_bind]. apply union_loop_ext.
  intros [x|t|g] Hv; [done..|]. simpl.
  apply in_set_order in Hv. pose proof (Hl f fd e X g Hf Hk Hv).
  apply IH; lia.
Qed.

Lemma get_lineage_total s :
  lineage_older s →
  ∀ f n, (f < n)%nat → get_lineage_at set_order n s f ≠ Raise OutOfFuel.
Proof.
  intros Hl f. induction (lt_wf f) as [f _ IH]. intros n Hn.
  destruct n as [|n]; [lia|]. simpl.
  unfold lookup_field. destruct (fields s !! f) as [fd|] eqn:Hf; [|done].
  cbn [of_option mbind result_bind].
  destruct (f_kind fd) as [|e [X|]] eqn:Hk; [done| |done].
  cbn [of_option mbind result_bind].
  intros (v & Hv & Hcall)%union_loop_Raise. apply in_set_order in Hv.
  destruct v as [x|t|g]; simpl in Hcall; [done| |].
  - unfold __getattr__, __getitem__, lookup_table in Hcall.
    destruct (tables s !! t) as [tb|]; [|done].
    cbn [of_option mbind result_bind] in Hcall.
    by destruct (dict_get "get_lineage" (t_fields tb)).
  - pose proof (Hl f fd e X g Hf Hk Hv). apply (IH g) in Hcall; [done|lia..].
Qed.

(** One step of [DerivedField.get_lineage], with the recursive calls
    at the same bound. *)
Lemma get_lineage_unfold s f fd e X :
  lineage_older s →
  fields s !! f = Some fd → f_kind fd = KDerived e (Some X) →
  get_lineage set_order s f
  = union_loop (call_get_lineage s (get_lineage set_order s))
      (set_order X) ∅.
Proof.
  intros Hl Hf Hk. unfold get_lineage at 1.
  pose proof (lookup_lt_Some _ _ _ Hf) as Hlt.
  destruct (length (fields s)) as [|n] eqn:Hlen; [lia|].
  cbn [get_lineage_at]. unfold lookup_field. rewrite Hf.
  cbn [of_option mbind result_bind]. rewrite Hk.
  cbn [of_option mbind result_bind]. apply union_loop_ext.
  intros [x|t|g] Hv; cbn [call_get_lineage]; [done..|].
  apply in_set_order in Hv. pose proof (Hl f fd e X g Hf Hk Hv).
  unfold get_lineage. rewrite Hlen.
  apply get_lineage_at_stable; [done|lia..].
Qed.
End Lineage.

Lemma call_get_lineage_mono s (r1 r2 : fref → result (gset pyval)) v L :
  (∀ g L', r1 g = Ok L' → r2 g = Ok L') →
  call_get_lineage s r1 v = Ok L → call_get_lineage s r2 v = Ok L.
Proof.
  intros H. destruct v as [x|t|g]; simpl; [done| |by apply H].
  by destruct (__getattr__ s t "get_lineage").
Qed.

(** The set [get_lineage] returns does not depend on the order in which
    the source sets are iterated. *)
Lemma get_lineage_at_order o1 o2 s :
  (∀ X, o1 X ≡ₚ elements X) → (∀ X, o2 X ≡ₚ elements X) →
  ∀ n f L, get_lineage_at o1 n s f = Ok L → get_lineage_at o2 n s f = Ok L.
Proof.
  intros H1 H2. induction n as [|n IH]; intros f L; simpl; [done|].
  destruct (lookup_field s f) as [fd|]; [|done].
  cbn [mbind result_bind].
  destruct (f_kind fd) as [|e [X|]]; [done| |done].
  cbn [of_option mbind result_bind]. intros Hrun.
  destruct (union_loop_Ok _ _ _ _ Hrun) as [Hall Hmem].
  set (c1 := call_get_lineage s (get_lineage_at o1 n s)) in *.
  set (c2 := call_get_lineage s (get_lineage_at o2 n s)).
  assert (Hmono : ∀ v r, c1 v = Ok r → c2 v = Ok r).
  { intros v r. by apply call_get_lineage_mono. }
  assert (Hsame : ∀ v, v ∈ o2 X ↔ v ∈ o1 X).
  { intros v. by rewrite (in_set_order o1 H1), (in_set_order o2 H2). }
  destruct (union_loop_total c2 (o2 X) ∅) as [L2 Hrun2].
  { intros v Hv%Hsame. destruct (Hall v Hv) as [r Hr]. exists r. by apply Hmono. }
  rewrite Hrun2. f_equal. apply set_eq. intros x.
  destruct (union_loop_Ok _ _ _ _ Hrun2) as [_ Hmem2].
  rewrite Hmem, Hmem2. apply or_iff_compat_l. split.
  - intros (v & r & Hv%Hsame & Hc & Hx). exists v, r. split; [done|].
    split; [|done]. destruct (Hall v Hv) as [r' Hr'].
    pose proof (Hmono v r' Hr'). congruence.
  - intros (v & r & Hv & Hc & Hx). exists v, r.
    split; [by apply Hsame|]. split; [by apply Hmono | done].
Qed.

Lemma get_lineage_at_S set_order n s f :
  get_lineage_at set_order (S n) s f
  = fd ← lookup_field s f;
    match f_kind fd with
    | KRaw => Ok {[VField f]}
    | KDerived _ srcs =>
        X ← of_option srcs AttributeError;
        union_loop (call_get_lineage s (get_lineage_at set_order n s))
          (set_order X) ∅
    end.
Proof. reflexivity. Qed.

Lemma union_loop_mono c1 c2 l : ∀ acc L,
  (∀ v r, c1 v = Ok r → c2 v = Ok r) →
  union_loop c1 l acc = Ok L → union_loop c2 l acc = Ok L.
Proof.
  induction l as [|v l IH]; intros acc L H; simpl; [done|].
  destruct (c1 v) as [r|] eqn:Hv; [|done].
  rewrite (H v r Hv). cbn [mbind result_bind]. by apply IH.
Qed.

(** What returns within [n] nested calls returns the same within more. *)
Lemma get_lineage_at_mono set_order s n : ∀ f L,
  get_lineage_at set_order n s f = Ok L →
  get_lineage_at set_order (S n) s f = Ok L.
Proof.
  induction n as [|n IH]; intros f L; [done|].
  rewrite (get_lineage_at_S _ (S n)), (get_lineage_at_S _ n).
  destruct (lookup_field s f) as [fd|]; [|done].
  cbn [mbind result_bind].
  destruct (f_kind fd) as [|e [X|]]; [done| |done].
  cbn [of_option mbind result_bind]. apply union_loop_mono.
  intros v r. by apply call_get_lineage_mono.
Qed.

Lemma get_lineage_at_mono_le set_order s n m f L :
  (n ≤ m)%nat → get_lineage_at set_order n s f = Ok L →
  get_lineage_at set_order m s f = Ok L.
Proof.
  induction 1 as [|m _ IH]; [done|]. intros H. by apply get_lineage_at_mono, IH.
Qed.

Lemma call_get_lineage_Ok s self_lineage v r :
  call_get_lineage s self_lineage v = Ok r →
  ∃ g, v = VField g ∧ self_lineage g = Ok r.
Proof.
  destruct v as [x|t|g]; simpl; [done| |by eauto].
  by destruct (__getattr__ s t "get_lineage").
Qed.

(** One call of [DerivedField.get_lineage]: it returns within [S n]
    nested calls exactly when every member of the source set is a field
    whose own call returns within [n], and what it returns is the union
    of what those calls return. *)
Lemma get_lineage_step set_order s D fd e X n L :
  (∀ X, set_order X ≡ₚ elements X) →
  fields s !! D = Some fd → f_kind fd = KDerived e (Some X) →
  get_lineage_at set_order (S n) s D = Ok L ↔
  (∀ v, v ∈ X → ∃ g Lg, v = VField g ∧ get_lineage_at set_order n s g = Ok Lg) ∧
  (∀ x, x ∈ L ↔ ∃ g Lg, VField g ∈ X ∧
                        get_lineage_at set_order n s g = Ok Lg ∧ x ∈ Lg).
Proof.
  intros Hperm HD Hk. rewrite get_lineage_at_S. unfold lookup_field.
  rewrite HD. cbn [of_option mbind result_bind]. rewrite Hk.
  cbn [of_option mbind result_bind].
  set (c := call_get_lineage s (get_lineage_at set_order n s)).
  assert (Hmem : ∀ L',
    union_loop c (set_order X) ∅ = Ok L' →
    ∀ x, x ∈ L' ↔ ∃ g Lg, VField g ∈ X ∧
                          get_lineage_at set_order n s g = Ok Lg ∧ x ∈ Lg).
  { intros L' HL' x. destruct (union_loop_Ok _ _ _ _ HL') as [_ Hm].
    rewrite Hm. split.
    - intros [?%not_elem_of_empty | (v & r & Hv & Hc & Hx)]; [done|].
      apply call_get_lineage_Ok in Hc as (g & -> & Hg).
      exists g, r. by rewrite <- (in_set_order set_order Hperm).
    - intros (g & Lg & Hg & Hc & Hx). right. exists (VField g), Lg.
      by rewrite (in_set_order set_order Hperm). }
  split.
  - intros HL. split; [|by apply Hmem].
    intros v Hv%(in_set_order set_order Hperm).
    destruct (union_loop_Ok _ _ _ _ HL) as [Hall _].
    destruct (Hall v Hv) as [r Hc].
    apply call_get_lineage_Ok in Hc as (g & -> & Hg). by exists g, r.
  - intros [Hall HL].
    destruct (union_loop_total c (set_order X) ∅) as [L' HL'].
    { intros v Hv%(in_set_order set_order Hperm).
      destruct (Hall v Hv) as (g & Lg & -> & Hg). by exists Lg. }
    rewrite HL'. f_equal. apply set_eq. intros x.
    by rewrite (Hmem L' HL' x), HL.
Qed.

(** C3: a source field's lineage is the set holding just that field.
    For a derived field with direct-source set [X]: whenever
    [get_lineage] returns a set, every member of [X] is a field on which
    [get_lineage] returns a set too, and the set returned is the union
    of those sets; and when, with [n] nested calls allowed, [get_lineage]
    returns a set on every member of [X], then with one call more it
    returns a set on the derived field, the union again.  The function
    only reads the store, and the set it returns is the same whatever
    order the source sets are iterated in, so a repeated call returns
    the same set. *)
Theorem lineage_is_union (set_order : gset pyval → list pyval) :
  (∀ X, set_order X ≡ₚ elements X) →
  (∀ s S fd, fields s !! S = Some fd → f_kind fd = KRaw →
             get_lineage set_order s S = Ok {[VField S]}) ∧
  (∀ s D fd e X,
     fields s !! D = Some fd → f_kind fd = KDerived e (Some X) →
     (∀ L, get_lineage set_order s D = Ok L →
           (∀ v, v ∈ X →
                 ∃ g Lg, v = VField g ∧ get_lineage set_order s g = Ok Lg) ∧
           (∀ x, x ∈ L ↔
                 ∃ g Lg, VField g ∈ X ∧
                         get_lineage set_order s g = Ok Lg ∧ x ∈ Lg)) ∧
     (∀ n, (∀ v, v ∈ X →
                 ∃ g Lg, v = VField g ∧
                         get_lineage_at set_order n s g = Ok Lg) →
           ∃ L, get_lineage_at set_order (S n) s D = Ok L ∧
                ∀ x, x ∈ L ↔
                     ∃ g Lg, VField g ∈ X ∧
                             get_lineage_at set_order n s g = Ok Lg ∧
                             x ∈ Lg)) ∧
  (∀ other s f L,
     (∀ X, other X ≡ₚ elements X) →
     get_lineage set_order s f = Ok L → get_lineage other s f = Ok L).
Proof.
  intros Hperm. split; [|split].
  - intros s S fd Hf Hk. unfold get_lineage.
    pose proof (lookup_lt_Some _ _ _ Hf) as Hlt.
    destruct (length (fields s)) as [|n]; [lia|]. simpl.
    unfold lookup_field. rewrite Hf. cbn [of_option mbind result_bind].
    by rewrite Hk.
  - intros s D fd e X Hf Hk. split.
    + intros L HL. unfold get_lineage in *.
      destruct (length (fields s)) as [|n]; [done|].
      apply (get_lineage_step set_order s D fd e X n L Hperm Hf Hk) in HL
        as [Hall Hmem].
      split.
      * intros v Hv. destruct (Hall v Hv) as (g & Lg & -> & Hg).
        exists g, Lg. split; [done | by apply get_lineage_at_mono].
      * intros x. rewrite Hmem. split.
        -- intros (g & Lg & Hg & Hc & Hx). exists g, Lg.
           split; [done|]. split; [by apply get_lineage_at_mono | done].
        -- intros (g & Lg & Hg & Hc & Hx).
           destruct (Hall (VField g) Hg) as (g' & Lg' & [= <-] & Hc').
           pose proof (get_lineage_at_mono _ _ _ _ _ Hc') as Hc''.
           exists g, Lg'. split; [done|]. split; [done | congruence].
    + intros n Hall.
      destruct (union_loop_total
                  (call_get_lineage s (get_lineage_at set_order n s))
                  (set_order X) ∅) as [L HL].
      { intros v Hv%(in_set_order set_order Hperm).
        destruct (Hall v Hv) as (g & Lg & -> & Hg). by exists Lg. }
      assert (HD : get_lineage_at set_order (S n) s D = Ok L).
      { rewrite get_lineage_at_S. unfold lookup_field. rewrite Hf.
        cbn [of_option mbind result_bind]. rewrite Hk. exact HL. }
      exists L. split; [done|].
      by apply (get_lineage_step set_order s D fd e X n L Hperm Hf Hk).
  - intros other s f L Hother. by apply get_lineage_at_order.
Qed.

Lemma lineage_is_union_witness :
  get_lineage elements closed_c 0 = Ok {[VField 0]} ∧
  get_lineage elements closed_c 3 = Ok {[VField 0]} ∧
  (∀ x, x ∈ ({[VField 0]} : gset pyval) ↔
        ∃ g Lg, VField g ∈ ({[VField 2]} : gset pyval) ∧
                get_lineage elements closed_c g = Ok Lg ∧ x ∈ Lg) ∧
  (∃ L, get_lineage_at elements 3 closed_c 3 = Ok L ∧
        ∀ x, x ∈ L ↔
             ∃ g Lg, VField g ∈ ({[VField 2]} : gset pyval) ∧
                     get_lineage_at elements 2 closed_c g = Ok Lg ∧ x ∈ Lg) ∧
  get_lineage backwards closed_c 3 = Ok {[VField 0]}.
Proof.
  destruct (lineage_is_union elements elements_order)
    as (Hraw & Hderived & Horder).
  assert (Hc : fields closed_c !! 3%nat
               = Some (mkField "id" "id" (Some 2%nat)
                         (KDerived (Some "{b.id}") (Some {[VField 2%nat]}))))
    by (vm_compute; reflexivity).
  assert (Ha : fields closed_c !! 0%nat
               = Some (mkField "id" "id" (Some 0%nat) KRaw))
    by (vm_compute; reflexivity).
  assert (H3 : get_lineage elements closed_c 3 = Ok {[VField 0]})
    by (vm_compute; reflexivity).
  destruct (Hderived closed_c 3 _ _ _ Hc eq_refl) as [Hunion Hreturns].
  split; [|split; [|split; [|split]]].
  - exact (Hraw closed_c 0 _ Ha eq_refl).
  - exact H3.
  - exact (proj2 (Hunion _ H3)).
  - apply (Hreturns 2). intros v Hv. apply elem_of_singleton in Hv as ->.
    exists 2, {[VField 0]}. split; [reflexivity | vm_compute; reflexivity].
  - apply (Horder backwards closed_c 3 {[VField 0]}).
    + intros X. unfold backwards. apply reverse_Permutation.
    + exact H3.
Defined.

(** ** Placeholders whose alias is not a source *)






(** *** Resolution in a store that has grown *)















(** ** The alias mapping of a derived table *)

Lemma process_sources_last s sources : ∀ acc,
  Forall (λ t, is_Some (tables s !! t)) sources →
  ∃ m, _process_sources s sources acc = Ok m ∧
       ∀ a, m !! a = match last_aliased s a sources with
                     | Some t => Some t
                     | None => acc !! a
                     end.
Proof.
  induction sources as [|t sources IH]; intros acc Hall; simpl.
  - by exists acc.
  - apply Forall_cons in Hall as [[tb Ht] Hall].
    unfold lookup_table. rewrite Ht. cbn [of_option mbind result_bind].
    destruct (IH (<[t_alias tb := t]> acc) Hall) as (m & -> & Hm).
    exists m. split; [done|]. intros a. rewrite Hm.
    destruct (last_aliased s a sources); [done|].
    destruct (String.eqb (t_alias tb) a) eqn:Ha.
    + apply String.eqb_eq in Ha as ->. by rewrite lookup_insert_eq.
    + apply String.eqb_neq in Ha. by rewrite lookup_insert_ne.
Qed.

(** C8, as the code has it: creating a derived table from a list of
    existing tables always succeeds, two sources with one alias
    included; [get_source] on the new table answers, for every alias,
    with the last table of the list that has this alias, and raises
    [UnregisteredSourceException] when the list has none. *)
Theorem sources_keyed_by_alias s schema pname sources from_expression
    lname alias :
  Forall (λ t, is_Some (tables s !! t)) sources →
  ∃ s', DerivedTable schema pname sources from_expression lname alias s
        = (s', Ok (length (tables s))) ∧
        ∀ a, get_source s' (length (tables s)) a
             = of_option (last_aliased s a sources)
                 (UnregisteredSourceException (length (tables s)) a).
Proof.
  intros Hall. unfold DerivedTable.
  destruct (process_sources_last s sources ∅ Hall) as (m & -> & Hm).
  eexists. split; [reflexivity|]. intros a.
  unfold get_source, derived_method, lookup_table, new_table.
  cbn [fst tables]. rewrite lookup_last.
  cbn [of_option mbind result_bind t_derived d_sources].
  rewrite Hm, lookup_empty. by destruct (last_aliased s a sources).
Qed.

Lemma sources_keyed_by_alias_witness :
  ∃ s', DerivedTable "schema" "b" [0; 1] "{a}" None None two_a = (s', Ok 2) ∧
        ∀ a, get_source s' 2 a
             = of_option (last_aliased two_a a [0; 1])
                 (UnregisteredSourceException 2 a).
Proof.
  apply (sources_keyed_by_alias two_a "schema" "b" [0; 1] "{a}" None None).
  repeat constructor; by eexists.
Defined.

(** Two sources with the alias [a]: no error, the second one is kept. *)
Lemma duplicate_alias_accepted :
  (DerivedTable "schema" "b" [0; 1] "{a}" None None two_a).2 = Ok 2 ∧
  get_source (DerivedTable "schema" "b" [0; 1] "{a}" None None two_a).1 2 "a"
  = Ok 1.
Proof. split; vm_compute; reflexivity. Qed.

(** ** Evaluating placeholders *)

Lemma private_neq name r :
  private name = false → String.eqb name (String "_" r) = false.
Proof.
  destruct name as [|c name]; [done|]. simpl. by intros ->.
Qed.

Lemma table_getattr_ordinary s t tb name f :
  tables s !! t = Some tb → ordinary name = true →
  dict_get name (t_fields tb) = Some f →
  table_getattr s t name = Ok (VField f).
Proof.
  intros Ht [Hpriv Hmeth]%andb_prop Hf.
  apply negb_true_iff in Hpriv, Hmeth.
  unfold table_getattr, lookup_table. rewrite Ht.
  cbn [of_option mbind result_bind mem existsb].
  rewrite !(private_neq name) by done. cbn [orb]. rewrite Hpriv.
  assert (mem name (table_methods tb) = false) as ->.
  { unfold table_methods. cbn [mem existsb] in Hmeth.
    repeat (apply orb_false_elim in Hmeth as [? Hmeth]).
    destruct (t_derived tb); cbn [app mem existsb];
      repeat (apply orb_false_intro; [done|]); done. }
  unfold __getattr__. by apply (getitem_found _ _ tb).
Qed.

Lemma py_str_field s f fd t tb :
  fields s !! f = Some fd → f_table fd = Some t → tables s !! t = Some tb →
  py_str s (VField f) = Ok (t_alias tb +:+ "." +:+ f_pname fd).
Proof.
  intros Hf Htab Ht. unfold py_str, lookup_field, lookup_table.
  rewrite Hf. cbn [of_option mbind result_bind]. rewrite Htab, Ht. done.
Qed.

Lemma py_str_table s t tb :
  tables s !! t = Some tb → py_str s (VTable t) = Ok (table_str tb).
Proof. intros Ht. unfold py_str, lookup_table. by rewrite Ht. Qed.

(** ** The example of the [DerivedField] docstring: [abs({t1.income})] *)

(** The store after a derived field was registered in table [t]: the
    other tables and the older fields are still there. *)
Lemma registered_other_table (tbls : list Table) t tb' src stb :
  src ≠ t → tbls !! src = Some stb → <[t := tb']> tbls !! src = Some stb.
Proof. intros Hne H. by rewrite list_lookup_insert_ne. Qed.

Lemma parse_abs_income :
  formatter_parser "abs({t1.income})"
  = ([("abs(", Some (ReplField "t1.income" "" None)); (")", None)], None).
Proof. reflexivity. Qed.

(** C2, as the code has it: in a reachable state where the open table
    is a derived table whose sources hold, under the alias [t1], a table
    with a field [income], constructing a derived field [dname] with the
    expression [abs({t1.income})] succeeds; its [get_sources] is the set
    holding exactly that [income] field, and its [get_expression] is
    [abs(t1.income) as dname], with the keyword [as] in lower case. *)
Theorem resolved_expression s t rest tb d src stb income dname lname :
  reachable s →
  CURRENT_TABLE_CONTEXT s = t :: rest →
  tables s !! t = Some tb →
  t_derived tb = Some d →
  dict_get dname (t_fields tb) = None →
  d_sources d !! "t1" = Some src →
  tables s !! src = Some stb →
  dict_get "income" (t_fields stb) = Some income →
  ∃ s', DerivedField dname "abs({t1.income})" lname s
        = (s', Ok (length (fields s))) ∧
        get_sources s' (length (fields s)) = Ok {[VField income]} ∧
        get_expression s' (length (fields s))
        = Ok ("abs(t1.income) as " +:+ dname).
Proof.
  intros Hwf%reachable_wf Hctx Ht Hd Hfresh Hsrc Hstb Hincome.
  destruct (wf_sources _ Hwf t tb d "t1" src Ht Hd Hsrc)
    as (Hlt & stb' & Hstb' & Halias).
  assert (stb' = stb) as -> by congruence.
  destruct (wf_owned _ Hwf src stb "income" income Hstb
              (dict_get_elem _ _ _ Hincome)) as (fd & Hfd & Htable & Hpname).
  assert (Hne : src ≠ t) by lia.
  assert (Htlt : (t < length (tables s))%nat) by by eapply lookup_lt_Some.
  rewrite (DerivedField_registers _ _ _ _ _ _ _ Hctx Ht Hfresh).
  cbn beta zeta.
  set (tbls := <[t := registered tb dname (length (fields s))]> (tables s)).
  assert (Htbls_t : tbls !! t = Some (registered tb dname (length (fields s))))
    by by apply list_lookup_insert_eq.
  assert (Htbls_src : tbls !! src = Some stb)
    by by apply registered_other_table.
  assert (Hresolve : ∀ flds ctx,
    get_field (mkState tbls flds ctx) "t1.income" (CtxMapping (d_sources d))
    = Ok (VField income)).
  { intros flds ctx. unfold get_field.
    change (formatter_field_name_split "t1.income")
      with ("t1", ([Attr "income"], (None : option exn))).
    unfold get_value. change (is_index "t1") with false. cbv iota.
    rewrite Hsrc. cbn [fmap option_fmap option_map of_option mbind result_bind follow py_getattr].
    rewrite (table_getattr_ordinary _ src stb "income" income); done. }
  assert (Hsources : ∀ flds ctx,
    table_sources (mkState tbls flds ctx) t = Ok (CtxMapping (d_sources d))).
  { intros flds ctx.
    by apply (table_sources_derived _ t
                (registered tb dname (length (fields s))) d). }
  assert (Hformat : ∀ flds ctx,
    format_field (mkState tbls flds ctx) (VTable <$> d_sources d) "t1.income"
    = Ok (VField income)).
  { intros flds ctx. unfold format_field.
    change (formatter_field_name_split "t1.income")
      with ("t1", ([Attr "income"], (None : option exn))).
    cbv beta iota.
    change (is_empty "t1") with false. change (is_index "t1") with false.
    cbv iota. rewrite lookup_fmap, Hsrc.
    cbn [fmap option_fmap option_map of_option mbind result_bind follow
         py_getattr].
    rewrite (table_getattr_ordinary _ src stb "income" income); done. }
  rewrite Hsources.
  cbn [mbind result_bind]. unfold get_fields_from_expr at 1.
  rewrite parse_abs_income. cbn [collect_fields rf_name].
  change (is_empty "t1.income") with false. cbv iota.
  rewrite Hresolve. cbn [mbind result_bind].
  eexists. split; [reflexivity|]. split.
  - unfold get_sources, lookup_field. cbn [fields]. rewrite lookup_last.
    cbn [of_option mbind result_bind f_kind]. f_equal.
    apply (left_id_L ∅ (∪)).
  - unfold get_expression, lookup_field. cbn [fields]. rewrite lookup_last.
    cbn [of_option mbind result_bind f_kind f_pname].
    rewrite (owner_sources_last _ _ _ _ t) by reflexivity.
    rewrite Hsources. cbn [mbind result_bind format_sources].
    unfold format. rewrite parse_abs_income.
    cbn [format_items rf_name rf_spec rf_conversion].
    rewrite Hformat.
    cbn [mbind result_bind convert has_brace render is_empty].
    rewrite (py_str_field _ income fd src stb);
      [| by apply lookup_grown | done | done].
    cbn [mbind result_bind]. rewrite Halias, Hpname. reflexivity.
Qed.

Lemma resolved_expression_witness :
  ∃ s', DerivedField "abs_income" "abs({t1.income})" None open_t2 = (s', Ok 1) ∧
        get_sources s' 1 = Ok {[VField 0]} ∧
        get_expression s' 1 = Ok "abs(t1.income) as abs_income".
Proof.
  exact (resolved_expression open_t2 1 []
           (mkTable "main" "table_2" "Table 2" "t2" []
              (Some (mkDerived ∅ {["t1" := 0]} "{t1}")))
           (mkDerived ∅ {["t1" := 0]} "{t1}") 0
           (mkTable "main" "table_1" "Table 1" "t1" [("income", 0)] None)
           0 "abs_income" None
           (reachable_run _) eq_refl eq_refl eq_refl eq_refl eq_refl eq_refl
           eq_refl).
Defined.

(** The compiled expression spells the keyword in lower case. *)
Lemma resolved_expression_not_upper_case :
  get_expression (DerivedField "abs_income" "abs({t1.income})" None open_t2).1 1
  ≠ Ok "abs(t1.income) AS abs_income".
Proof. vm_compute. discriminate. Qed.

(** ** The compiled query *)

Lemma parse_query_template :
  formatter_parser (cleandoc query_doc)
  = ([("create table ", Some (ReplField "new_table" "" None));
      (" as" +:+ NL +:+ "select" +:+ NL +:+ "    ",
       Some (ReplField "select_expr" "" None));
      (NL +:+ "from" +:+ NL +:+ "    ", Some (ReplField "from_expr" "" None));
      (NL, Some (ReplField "where_expr" "" None));
      (NL, Some (ReplField "groupby_expr" "" None));
      (";", None)], None).
Proof. reflexivity. Qed.

(** A replacement field that names a keyword argument holding a
    string. *)
Lemma format_keyword s kwargs key x :
  plain_name key = true → is_empty key = false → is_index key = false →
  kwargs !! key = Some (VStr x) →
  (obj ← format_field s kwargs key;
   obj' ← convert s None obj;
   if has_brace "" then Raise Unmodelled else render s obj' "")
  = Ok x.
Proof.
  intros Hplain Hne Hidx Hkey. unfold format_field, formatter_field_name_split.
  assert (split_first key = (key, "")) as ->.
  { clear Hne Hidx Hkey. induction key as [|c key IH]; [done|].
    cbn [plain_name] in Hplain.
    apply andb_prop in Hplain as [[Hc Hdot]%andb_prop H].
    apply field_char_spec in Hc as (_ & _ & Hb & _).
    apply negb_true_iff in Hdot. cbn [split_first].
    rewrite Hdot, Hb. cbn [orb]. by rewrite IH. }
  cbn [field_name_rest]. rewrite Hne, Hidx, Hkey. reflexivity.
Qed.

(** [get_query] lays its clauses out in a fixed order: the name of the
    new table, the select list, the from clause, an empty line where a
    where clause would go, and the group-by clause. *)
Lemma get_query_layout set_order s t tb d select_expr from_expr groupby_expr :
  tables s !! t = Some tb → t_derived tb = Some d →
  get_select s t 4 = Ok select_expr →
  get_from s t = Ok from_expr →
  get_groupby set_order s t = Ok groupby_expr →
  get_query set_order s t
  = Ok ("create table " +:+ t_pname tb +:+ " as" +:+ NL +:+
        "select" +:+ NL +:+
        "    " +:+ select_expr +:+ NL +:+
        "from" +:+ NL +:+
        "    " +:+ from_expr +:+ NL +:+
        "" +:+ NL +:+
        groupby_expr +:+ ";").
Proof.
  intros Ht Hd Hsel Hfrom Hgrp. unfold get_query, derived_method, lookup_table.
  rewrite Ht. cbn [of_option mbind result_bind]. rewrite Hd.
  cbn [mbind result_bind]. rewrite Hsel, Hfrom, Hgrp.
  cbn [mbind result_bind]. unfold format. rewrite parse_query_template.
  cbn [format_items rf_name rf_spec rf_conversion].
  rewrite (format_keyword _ _ "new_table" (t_pname tb)); [|done..].
  rewrite (format_keyword _ _ "select_expr" select_expr); [|done..].
  rewrite (format_keyword _ _ "from_expr" from_expr); [|done..].
  rewrite (format_keyword _ _ "where_expr" ""); [|done..].
  rewrite (format_keyword _ _ "groupby_expr" groupby_expr); [|done..].
  reflexivity.
Qed.

Section Query.
Variable set_order : gset pyval → list pyval.
Hypothesis set_order_perm : ∀ X, set_order X ≡ₚ elements X.

Lemma set_order_singleton v : set_order {[v]} = [v].
Proof.
  apply Permutation_singleton_r. rewrite (set_order_perm {[v]}).
  by rewrite elements_singleton.
Qed.

Lemma get_groupby_empty s t tb d :
  tables s !! t = Some tb → t_derived tb = Some d → d_groupby d = ∅ →
  get_groupby set_order s t = Ok "".
Proof.
  intros Ht Hd Hg. unfold get_groupby, derived_method, lookup_table.
  rewrite Ht. cbn [of_option mbind result_bind]. rewrite Hd.
  cbn [mbind result_bind]. by rewrite Hg, size_empty.
Qed.

Lemma get_groupby_single s t tb d g gd :
  tables s !! t = Some tb → t_derived tb = Some d →
  d_groupby d = {[VField g]} → fields s !! g = Some gd →
  get_groupby set_order s t
  = Ok ("group by " +:+ NL +:+ " " +:+ f_pname gd).
Proof.
  intros Ht Hd Hg Hgd. unfold get_groupby, derived_method, lookup_table.
  rewrite Ht. cbn [of_option mbind result_bind]. rewrite Hd.
  cbn [mbind result_bind]. rewrite Hg, size_singleton, set_order_singleton.
  cbn [Nat.eqb mapM attr_pname]. unfold lookup_field. rewrite Hgd.
  reflexivity.
Qed.

(** C1, as the code has it: for the derived table [b] with the single
    source [schema.a] under alias [a], from-template [{a}], the one
    field [DerivedField("id", "{a.id}")] and the grouping set holding a
    field named [vendor_id], [get_query] returns the statement in
    lower-case keywords, one clause per line, in the order
    create/select/from/where/group-by with an empty line for the where
    clause; with an empty grouping set the group-by text is empty. *)
Theorem compiled_query s b tb d src stb f fd srcs a_id :
  reachable s →
  tables s !! b = Some tb → t_pname tb = "b" →
  t_derived tb = Some d → d_from_expression d = "{a}" →
  d_sources d !! "a" = Some src →
  tables s !! src = Some stb → t_schema stb = "schema" → t_pname stb = "a" →
  t_fields tb = [("id", f)] →
  fields s !! f = Some fd → f_kind fd = KDerived (Some "{a.id}") srcs →
  dict_get "id" (t_fields stb) = Some a_id →
  (∀ g gd, d_groupby d = {[VField g]} → fields s !! g = Some gd →
           f_pname gd = "vendor_id" →
           get_query set_order s b
           = Ok ("create table b as" +:+ NL +:+
                 "select" +:+ NL +:+
                 "    a.id as id" +:+ NL +:+
                 "from" +:+ NL +:+
                 "    schema.a as a" +:+ NL +:+
                 NL +:+
                 "group by " +:+ NL +:+
                 " vendor_id;")) ∧
  (d_groupby d = ∅ →
   get_query set_order s b
   = Ok ("create table b as" +:+ NL +:+
         "select" +:+ NL +:+
         "    a.id as id" +:+ NL +:+
         "from" +:+ NL +:+
         "    schema.a as a" +:+ NL +:+
         NL +:+
         ";")).
Proof.
  intros Hwf%reachable_wf Hb Hbname Hd Hfrom Hsrc Hstb Hschema Haname
    Hfields Hf Hkind Hid.
  destruct (wf_sources _ Hwf b tb d "a" src Hb Hd Hsrc)
    as (_ & stb' & Hstb' & Halias).
  assert (stb' = stb) as -> by congruence.
  destruct (wf_owned _ Hwf b tb "id" f Hb) as (fd' & Hf' & Hftable & Hfname).
  { rewrite Hfields. left. }
  assert (fd' = fd) as -> by congruence.
  destruct (wf_owned _ Hwf src stb "id" a_id Hstb (dict_get_elem _ _ _ Hid))
    as (ad & Had & Hatable & Haname').
  assert (Hselect : get_select s b 4 = Ok "a.id as id").
  { unfold get_select, derived_method, lookup_table.
    rewrite Hb. cbn [of_option mbind result_bind]. rewrite Hd.
    cbn [mbind result_bind]. rewrite Hfields.
    cbn [mbind result_bind mapM snd]. unfold get_expression, lookup_field.
    rewrite Hf. cbn [of_option mbind result_bind]. rewrite Hkind.
    cbn [of_option mbind result_bind]. unfold owner_sources, lookup_field.
    rewrite Hf. cbn [of_option mbind result_bind]. rewrite Hftable.
    cbn [of_option mbind result_bind].
    rewrite (table_sources_derived s b tb d Hb Hd).
    cbn [mbind result_bind format_sources]. unfold format.
    change (formatter_parser "{a.id}")
      with ([("", Some (ReplField "a.id" "" None))], (None : option exn)).
    cbn [format_items rf_name rf_spec rf_conversion]. unfold format_field.
    change (formatter_field_name_split "a.id")
      with ("a", ([Attr "id"], (None : option exn))).
    cbv beta iota.
    change (is_empty "a") with false. change (is_index "a") with false.
    cbv iota. rewrite lookup_fmap, Hsrc.
    cbn [fmap option_fmap option_map of_option mbind result_bind follow
         py_getattr].
    rewrite (table_getattr_ordinary _ src stb "id" a_id) by done.
    cbn [mbind result_bind convert has_brace render is_empty].
    rewrite (py_str_field _ a_id ad src stb) by done.
    cbn [mbind result_bind]. rewrite Halias, Haname', Hfname. reflexivity. }
  assert (Hfrom' : get_from s b = Ok "schema.a as a").
  { unfold get_from, derived_method, lookup_table.
    rewrite Hb. cbn [of_option mbind result_bind]. rewrite Hd.
    cbn [mbind result_bind]. rewrite Hfrom. unfold format.
    change (formatter_parser "{a}")
      with ([("", Some (ReplField "a" "" None))], (None : option exn)).
    cbn [format_items rf_name rf_spec rf_conversion]. unfold format_field.
    change (formatter_field_name_split "a")
      with ("a", ([] : list accessor, (None : option exn))).
    cbv beta iota.
    change (is_empty "a") with false. change (is_index "a") with false.
    cbv iota. rewrite lookup_fmap, Hsrc.
    cbn [fmap option_fmap option_map of_option mbind result_bind follow
         convert has_brace render is_empty].
    rewrite (py_str_table _ src stb) by done. unfold table_str.
    cbn [mbind result_bind]. rewrite Hschema, Haname, Halias. reflexivity. }
  split.
  - intros g gd Hg Hgd Hgname.
    rewrite (get_query_layout _ s b tb d _ _ _ Hb Hd Hselect Hfrom'
               (get_groupby_single s b tb d g gd Hb Hd Hg Hgd)).
    rewrite Hbname, Hgname. reflexivity.
  - intros Hg.
    rewrite (get_query_layout _ s b tb d _ _ _ Hb Hd Hselect Hfrom'
               (get_groupby_empty s b tb d Hb Hd Hg)).
    rewrite Hbname. reflexivity.
Qed.
End Query.

Lemma compiled_query_witness :
  get_query elements grouped_b 1
  = Ok ("create table b as" +:+ NL +:+
        "select" +:+ NL +:+
        "    a.id as id" +:+ NL +:+
        "from" +:+ NL +:+
        "    schema.a as a" +:+ NL +:+
        NL +:+
        "group by " +:+ NL +:+
        " vendor_id;").
Proof.
  exact (proj1 (compiled_query elements elements_order grouped_b 1
           (mkTable "schema" "b" "b" "b" [("id", 2)]
              (Some (mkDerived {[VField 1]} {["a" := 0]} "{a}")))
           (mkDerived {[VField 1]} {["a" := 0]} "{a}") 0
           (mkTable "schema" "a" "a" "a" [("id", 0); ("vendor_id", 1)] None)
           2 (mkField "id" "id" (Some 1)
                (KDerived (Some "{a.id}") (Some {[VField 0]})))
           (Some {[VField 0]}) 0
           (reachable_exec _ _ (reachable_run _))
           eq_refl eq_refl eq_refl eq_refl eq_refl eq_refl eq_refl eq_refl
           eq_refl eq_refl eq_refl eq_refl)
         1 (mkField "vendor_id" "vendor_id" (Some 0) KRaw)
         eq_refl eq_refl eq_refl).
Defined.

(** The statement is not the one-line, upper-case text. *)
Lemma compiled_query_not_upper_case :
  get_query elements grouped_b 1
  ≠ Ok "CREATE TABLE b AS SELECT a.id AS id FROM schema.a AS a GROUP BY vendor_id;".
Proof. vm_compute. discriminate. Qed.

(** * Further properties of the two modules *)

(** ** Registration and lookup *)

Lemma dict_get_other {V} key k (v : V) d :
  key ≠ k → dict_get key (d ++ [(k, v)]) = dict_get key d.
Proof.
  intros Hne. rewrite dict_get_app. destruct (dict_get key d); [done|].
  simpl. apply String.eqb_neq in Hne. rewrite String.eqb_sym in Hne.
  by rewrite Hne.
Qed.

(** X1: in the open scope of table [t], a [RawField] with a name [t]
    does not hold yet is constructed; [t[N]] is the new object, the
    other names of [t] and the other tables answer as before, and the
    new field is its own expression, its own source and prints as
    [alias.N]. *)
Theorem raw_field_registered s t rest tb N lname :
  CURRENT_TABLE_CONTEXT s = t :: rest →
  tables s !! t = Some tb →
  dict_get N (t_fields tb) = None →
  ∃ s', RawField N lname s = (s', Ok (length (fields s))) ∧
        __getitem__ s' t N = Ok (VField (length (fields s))) ∧
        (∀ key, key ≠ N → __getitem__ s' t key = __getitem__ s t key) ∧
        (∀ t', t' ≠ t → tables s' !! t' = tables s !! t') ∧
        get_expression s' (length (fields s)) = Ok N ∧
        get_sources s' (length (fields s)) = Ok {[VField (length (fields s))]} ∧
        py_str s' (VField (length (fields s))) = Ok (t_alias tb +:+ "." +:+ N).
Proof.
  intros Hctx Ht Hfresh.
  assert (Hlt : (t < length (tables s))%nat) by by eapply lookup_lt_Some.
  unfold RawField. rewrite (BaseField_registers _ _ _ _ _ _ _ Hctx Ht Hfresh).
  eexists. split; [reflexivity|].
  assert (Htb : <[t := registered tb N (length (fields s))]> (tables s) !! t
                = Some (registered tb N (length (fields s))))
    by by apply list_lookup_insert_eq.
  repeat split.
  - apply (getitem_found _ t (registered tb N (length (fields s))));
      [exact Htb | by apply dict_get_registered].
  - intros key Hkey. unfold __getitem__, lookup_table. cbn [tables].
    rewrite Htb, Ht. cbn [of_option mbind result_bind registered t_fields].
    by rewrite dict_get_other.
  - intros t' Hne. cbn [tables]. by rewrite list_lookup_insert_ne.
  - unfold get_expression, lookup_field. cbn [fields]. by rewrite lookup_last.
  - unfold get_sources, lookup_field. cbn [fields]. by rewrite lookup_last.
  - unfold py_str, lookup_field, lookup_table. cbn [fields tables].
    rewrite lookup_last. cbn [of_option mbind result_bind f_table].
    by rewrite Htb.
Qed.

Lemma raw_field_registered_witness :
  ∃ s', RawField "vendor_id" None open_a = (s', Ok 1) ∧
        __getitem__ s' 0 "vendor_id" = Ok (VField 1) ∧
        __getitem__ s' 0 "id" = Ok (VField 0).
Proof.
  destruct (raw_field_registered open_a 0 []
              (mkTable "schema" "a" "a" "a" [("id", 0)] None) "vendor_id" None
              eq_refl eq_refl eq_refl) as (s' & Hnew & Hget & Hold & _).
  exists s'. split; [exact Hnew|]. split; [exact Hget|].
  rewrite (Hold "id"); [reflexivity | discriminate].
Defined.

(** X2: in a reachable state the field [t[key]] returns exists, carries
    [key] as its physical name and [t] as its table, and no other table
    or name leads to the same object. *)
Theorem lookup_returns_own_field s t key f :
  reachable s →
  __getitem__ s t key = Ok (VField f) →
  (∃ fd, fields s !! f = Some fd ∧ f_pname fd = key ∧ f_table fd = Some t) ∧
  (∀ t' key', __getitem__ s t' key' = Ok (VField f) → t' = t ∧ key' = key).
Proof.
  intros Hwf%reachable_wf (tb & f' & Ht & Hf & [= <-])%getitem_inv.
  destruct (wf_owned _ Hwf t tb key f Ht (dict_get_elem _ _ _ Hf))
    as (fd & Hfd & Htable & Hpname).
  split; [by exists fd|].
  intros t' key' (tb' & f' & Ht' & Hf' & [= <-])%getitem_inv.
  destruct (wf_owned _ Hwf t' tb' key' f Ht' (dict_get_elem _ _ _ Hf'))
    as (fd' & Hfd' & Htable' & Hpname').
  split; congruence.
Qed.

Lemma lookup_returns_own_field_witness :
  (∃ fd, fields closed_b !! 2 = Some fd ∧ f_pname fd = "id" ∧
         f_table fd = Some 1) ∧
  (∀ t' key', __getitem__ closed_b t' key' = Ok (VField 2) →
              t' = 1 ∧ key' = "id").
Proof.
  exact (lookup_returns_own_field closed_b 1 "id" 2 (reachable_run _) eq_refl).
Defined.

(** ** How one operation changes the store *)

Lemma BaseField_store pname lname kind s :
  (∃ tbl, fields (BaseField pname lname kind s).1
          = (fields s ++ [mkField pname (default_to pname lname) tbl kind])%list) ∧
  (tables (BaseField pname lname kind s).1 = tables s ∨
   ∃ t tb, tables s !! t = Some tb ∧ dict_get pname (t_fields tb) = None ∧
           tables (BaseField pname lname kind s).1
           = <[t := registered tb pname (length (fields s))]> (tables s)).
Proof.
  rewrite BaseField_cases. cbn zeta.
  destruct (CURRENT_TABLE_CONTEXT s) as [|t ctx]; [by eauto|].
  destruct (tables s !! t) as [tb|] eqn:Ht; [|by eauto].
  destruct (dict_get pname (t_fields tb)) eqn:Hf; [by eauto|].
  split; [by eauto|]. right. by exists t, tb.
Qed.

Lemma DerivedField_fields pname expression lname s :
  ∃ tbl kind, fields (DerivedField pname expression lname s).1
              = (fields s ++ [mkField pname (default_to pname lname) tbl kind])%list.
Proof.
  destruct (BaseField pname lname (KDerived None None) s) as [s1 [self|e]]
    eqn:Hbase.
  2: { rewrite (DerivedField_not_registered _ _ _ _ e) by by rewrite Hbase.
       destruct (BaseField_store pname lname (KDerived None None) s)
         as [[tbl Hf] _]. by eauto. }
  rewrite BaseField_cases in Hbase. cbn zeta in Hbase.
  destruct (CURRENT_TABLE_CONTEXT s) as [|t ctx] eqn:Hctx; [done|].
  destruct (tables s !! t) as [tb|] eqn:Ht; [|done].
  destruct (dict_get pname (t_fields tb)) eqn:Hfresh; [done|].
  rewrite (DerivedField_registers _ _ _ _ _ _ _ Hctx Ht Hfresh). cbn zeta.
  destruct (_ ≫= _); by eauto.
Qed.

Lemma groupby_tables t keys s :
  tables (groupby t keys s).1 = tables s ∨
  ∃ tb d d', tables s !! t = Some tb ∧ t_derived tb = Some d ∧
             d_groupby d' = list_to_set keys ∧
             d_sources d' = d_sources d ∧
             d_from_expression d' = d_from_expression d ∧
             tables (groupby t keys s).1 = <[t := set_derived tb d']> (tables s).
Proof.
  unfold groupby, derived_method, lookup_table.
  destruct (tables s !! t) as [tb|] eqn:Ht; [|by left].
  cbn [of_option mbind result_bind].
  destruct (t_derived tb) as [d|] eqn:Hd.
  - right. by exists tb, d, (mkDerived (list_to_set keys) (d_sources d)
                               (d_from_expression d)).
  - left. by destruct (__getattr__ s t "groupby").
Qed.

(** The four ways an operation can change the list of tables. *)
Lemma exec_tables_cases o s :
  tables (exec o s) = tables s ∨
  (∃ tb, t_fields tb = [] ∧ tables (exec o s) = (tables s ++ [tb])%list) ∨
  (∃ t tb pname, tables s !! t = Some tb ∧
                 dict_get pname (t_fields tb) = None ∧
                 tables (exec o s)
                 = <[t := registered tb pname (length (fields s))]> (tables s)) ∨
  (∃ t tb d d', tables s !! t = Some tb ∧ t_derived tb = Some d ∧
                d_sources d' = d_sources d ∧
                d_from_expression d' = d_from_expression d ∧
                tables (exec o s) = <[t := set_derived tb d']> (tables s)).
Proof.
  destruct o; simpl.
  - right; left. eexists. split; [|reflexivity]. reflexivity.
  - unfold DerivedTable. destruct (_process_sources s sources ∅); [|by left].
    right; left. eexists. split; [|reflexivity]. reflexivity.
  - left. unfold __enter__. by destruct (0 <? _)%nat.
  - left. unfold __exit__. by destruct (existsb _ _).
  - destruct (BaseField_store pname lname KRaw s) as [_ [H | (t & tb & H)]];
      [by left|]. right; right; left. by exists t, tb, pname.
  - rewrite DerivedField_tables.
    destruct (BaseField_store pname lname (KDerived None None) s)
      as [_ [H | (t & tb & H)]]; [by left|].
    right; right; left. by exists t, tb, pname.
  - destruct (groupby_tables t keys s) as [H | (tb & d & d' & ? & ? & ? & ? & ? & ?)];
      [by left|]. right; right; right. by exists t, tb, d, d'.
Qed.

Lemma exec_fields o s :
  fields (exec o s) = fields s ∨
  ∃ pname lname tbl kind,
    fields (exec o s)
    = (fields s ++ [mkField pname (default_to pname lname) tbl kind])%list.
Proof.
  destruct o; simpl.
  - by left.
  - left. unfold DerivedTable. by destruct (_process_sources s sources ∅).
  - left. unfold __enter__. by destruct (0 <? _)%nat.
  - left. unfold __exit__. by destruct (existsb _ _).
  - right. destruct (BaseField_store pname lname KRaw s) as [[tbl H] _].
    by eauto.
  - right. destruct (DerivedField_fields pname expression lname s)
      as (tbl & kind & H). by eauto.
  - left. unfold groupby.
    by destruct (derived_method s t "groupby") as [[tb d]|].
Qed.

(** ** Names stay unique, objects stay as they are *)

Lemma dict_get_None {V} key (d : list (string * V)) :
  dict_get key d = None → key ∉ d.*1.
Proof.
  induction d as [|[k v] d IH]; simpl; [intros _; apply not_elem_of_nil|].
  destruct (String.eqb k key) eqn:Hk; [done|].
  apply String.eqb_neq in Hk. intros H%IH.
  apply not_elem_of_cons. by split.
Qed.

Lemma dict_get_NoDup {V} key (v : V) d :
  NoDup d.*1 → (key, v) ∈ d → dict_get key d = Some v.
Proof.
  induction d as [|[k w] d IH]; simpl; [by intros _ ?%elem_of_nil|].
  intros [Hk Hd]%NoDup_cons [[= -> ->] | Hin]%elem_of_cons.
  - by rewrite String.eqb_refl.
  - destruct (String.eqb k key) eqn:Heq; [|by apply IH].
    apply String.eqb_eq in Heq as ->. destruct Hk.
    apply list_elem_of_fmap. by exists (key, v).
Qed.

Lemma exec_unique_names o s : unique_names s → unique_names (exec o s).
Proof.
  intros Hu t' tb' Ht'.
  destruct (exec_tables_cases o s)
    as [H | [(tb & Hempty & H) | [(t & tb & pname & Ht & Hfresh & H)
                                 | (t & tb & d & d' & Ht & _ & _ & _ & H)]]];
    rewrite H in Ht'.
  - by eapply Hu.
  - apply lookup_app_Some in Ht' as [Ht' | [_ Ht']]; [by eapply Hu|].
    apply list_lookup_singleton_Some in Ht' as [_ <-]. rewrite Hempty.
    apply NoDup_nil_2.
  - apply list_lookup_insert_Some in Ht' as [(-> & <- & _) | [_ Ht']];
      [|by eapply Hu].
    simpl. rewrite fmap_app. apply NoDup_app. split; [by eapply Hu|].
    split; [|apply NoDup_singleton].
    intros k Hk [= ->]%list_elem_of_singleton.
    by apply dict_get_None in Hfresh.
  - apply list_lookup_insert_Some in Ht' as [(-> & <- & _) | [_ Ht']];
      [|by eapply Hu].
    simpl. by eapply Hu.
Qed.

Lemma reachable_unique_names s : reachable s → unique_names s.
Proof.
  induction 1 as [|s o _ IH]; [|by apply exec_unique_names].
  intros t tb Ht. simpl in Ht. by rewrite lookup_nil in Ht.
Qed.

(** X3: in a reachable state no table holds two fields under one name,
    so every field a table has registered is the one the table returns
    for its name. *)
Theorem registered_fields_retrievable s t tb :
  reachable s → tables s !! t = Some tb →
  NoDup (t_fields tb).*1 ∧
  ∀ key f, (key, f) ∈ t_fields tb → __getitem__ s t key = Ok (VField f).
Proof.
  intros Hu%reachable_unique_names Ht. split; [by eapply Hu|].
  intros key f Hin. apply (getitem_found _ _ tb); [done|].
  apply dict_get_NoDup; [by eapply Hu | done].
Qed.

Lemma registered_fields_retrievable_witness :
  NoDup ([("id", 0); ("vendor_id", 1)] : list (string * nat)).*1 ∧
  ∀ key f, (key, f) ∈ [("id", 0); ("vendor_id", 1)] →
           __getitem__ closed_b 0 key = Ok (VField f).
Proof.
  exact (registered_fields_retrievable closed_b 0
           (mkTable "schema" "a" "a" "a" [("id", 0); ("vendor_id", 1)] None)
           (reachable_run _) eq_refl).
Defined.

Lemma extends_refl tb : extends tb tb.
Proof. by repeat split. Qed.

Lemma extends_trans tb1 tb2 tb3 :
  extends tb1 tb2 → extends tb2 tb3 → extends tb1 tb3.
Proof.
  intros (? & ? & ? & ? & ? & ? & ?) (? & ? & ? & ? & ? & ? & ?).
  repeat split; try congruence. by etrans.
Qed.

Lemma exec_persist o s :
  (∀ f fd, fields s !! f = Some fd → fields (exec o s) !! f = Some fd) ∧
  (∀ t tb, tables s !! t = Some tb →
           ∃ tb', tables (exec o s) !! t = Some tb' ∧ extends tb tb').
Proof.
  split.
  - intros f fd Hf.
    destruct (exec_fields o s) as [-> | (pname & lname & tbl & kind & ->)];
      [done | by apply lookup_grown].
  - intros t' tb' Ht'.
    assert (Hlt : (t' < length (tables s))%nat) by by eapply lookup_lt_Some.
    destruct (exec_tables_cases o s)
      as [H | [(tb & Hempty & H) | [(t & tb & pname & Ht & Hfresh & H)
                                   | (t & tb & d & d' & Ht & Hd & Hs & Hf & H)]]];
      rewrite H.
    + exists tb'. split; [done | apply extends_refl].
    + exists tb'. split; [by apply lookup_grown | apply extends_refl].
    + destruct (decide (t' = t)) as [->|Hne].
      * rewrite list_lookup_insert_eq by done. eexists. split; [done|].
        assert (tb' = tb) as -> by congruence.
        repeat split. by apply prefix_app_r.
      * rewrite list_lookup_insert_ne by done.
        exists tb'. split; [done | apply extends_refl].
    + destruct (decide (t' = t)) as [->|Hne].
      * rewrite list_lookup_insert_eq by done. eexists. split; [done|].
        assert (tb' = tb) as -> by congruence.
        repeat split; simpl; by rewrite ?Hd, ?Hs, ?Hf.
      * rewrite list_lookup_insert_ne by done.
        exists tb'. split; [done | apply extends_refl].
Qed.

(** X4: whatever operations follow, a field object stays exactly as its
    constructor left it, and a table keeps its schema, names, alias,
    sources and from-template; its field mapping only grows at the end,
    so the registration order of the fields it has is kept. *)
Theorem objects_persist ops : ∀ s,
  (∀ f fd, fields s !! f = Some fd → fields (run ops s) !! f = Some fd) ∧
  (∀ t tb, tables s !! t = Some tb →
           ∃ tb', tables (run ops s) !! t = Some tb' ∧ extends tb tb').
Proof.
  induction ops as [|o ops IH]; intros s; simpl.
  - split; [done|]. intros t tb Ht. exists tb. split; [done | apply extends_refl].
  - destruct (exec_persist o s) as [Hf Ht]. destruct (IH (exec o s)) as [Hf' Ht'].
    split.
    + intros f fd H. by apply Hf', Hf.
    + intros t tb H. destruct (Ht t tb H) as (tb1 & H1 & He1).
      destruct (Ht' t tb1 H1) as (tb2 & H2 & He2).
      exists tb2. split; [done | by eapply extends_trans].
Qed.

(** ** Scopes open and close *)

(** X5: on an empty context, entering the scope of [t] and leaving it
    again gives back the state one started from; while the scope of [t]
    is open, any other table that tries to leave raises [RuntimeError]
    and changes nothing. *)
Theorem scope_round_trip s t :
  CURRENT_TABLE_CONTEXT s = [] →
  __exit__ t (__enter__ t s).1 = (s, Ok ()) ∧
  ∀ u, u ≠ t →
       __exit__ u (__enter__ t s).1 = ((__enter__ t s).1, Raise RuntimeError).
Proof.
  intros Hctx. rewrite enter_empty by done. cbn [fst]. split.
  - unfold __exit__. cbn [CURRENT_TABLE_CONTEXT tables fields existsb list_remove].
    rewrite Nat.eqb_refl. cbn [orb]. destruct s as [tbls flds ctx].
    simpl in Hctx. by subst.
  - intros u Hne. unfold __exit__. cbn [CURRENT_TABLE_CONTEXT existsb].
    apply Nat.eqb_neq in Hne. by rewrite Hne.
Qed.

Lemma scope_round_trip_witness :
  __exit__ 0 (__enter__ 0 closed_b).1 = (closed_b, Ok ()) ∧
  __exit__ 1 (__enter__ 0 closed_b).1
    = ((__enter__ 0 closed_b).1, Raise RuntimeError).
Proof.
  destruct (scope_round_trip closed_b 0 eq_refl) as [Hback Hother].
  split; [exact Hback | apply Hother; discriminate].
Defined.

(** ** Sources of a derived table *)

Lemma derived_method_inv s t name tb d :
  derived_method s t name = Ok (tb, d) →
  tables s !! t = Some tb ∧ t_derived tb = Some d.
Proof.
  unfold derived_method, lookup_table.
  destruct (tables s !! t) as [tb'|]; [|done].
  cbn [of_option mbind result_bind].
  destruct (t_derived tb') as [d'|] eqn:Hd.
  - by intros [= <- <-].
  - by destruct (__getattr__ s t name).
Qed.

(** X6: in a reachable state the table [get_source] returns for an
    alias was created before the derived table (a table is never among
    its own sources) and carries that very alias. *)
Theorem source_is_older s t a src :
  reachable s → get_source s t a = Ok src →
  (src < t)%nat ∧ ∃ stb, tables s !! src = Some stb ∧ t_alias stb = a.
Proof.
  intros Hwf%reachable_wf. unfold get_source.
  destruct (derived_method s t "get_source") as [[tb d]|] eqn:Hm; [|done].
  apply derived_method_inv in Hm as [Ht Hd]. cbn [mbind result_bind].
  destruct (d_sources d !! a) as [src'|] eqn:Hsrc; [|done].
  intros [= <-]. by apply (wf_sources _ Hwf t tb d).
Qed.

Lemma source_is_older_witness :
  (0 < 1)%nat ∧ ∃ stb, tables closed_b !! 0 = Some stb ∧ t_alias stb = "a".
Proof.
  exact (source_is_older closed_b 1 "a" 0 (reachable_run _) eq_refl).
Defined.

(** ** Where a lineage ends *)

Lemma get_lineage_Ok_inv set_order s f L :
  get_lineage set_order s f = Ok L →
  ∃ fd, fields s !! f = Some fd ∧
        (f_kind fd = KRaw ∧ L = {[VField f]} ∨
         ∃ e X, f_kind fd = KDerived e (Some X)).
Proof.
  unfold get_lineage. destruct (length (fields s)) as [|n]; [done|]. simpl.
  unfold lookup_field. destruct (fields s !! f) as [fd|]; [|done].
  cbn [of_option mbind result_bind]. intros H. exists fd. split; [done|].
  destruct (f_kind fd) as [|e [X|]]; [|by eauto|done].
  left. by injection H as <-.
Qed.

(** X7: in a reachable state every member of a lineage is a source
    field, and none of them was created after the field asked. *)
Theorem lineage_ends_at_raw_fields (set_order : gset pyval → list pyval) s :
  (∀ X, set_order X ≡ₚ elements X) →
  reachable s →
  ∀ f L, get_lineage set_order s f = Ok L →
  ∀ x, x ∈ L →
       ∃ g gd, x = VField g ∧ (g ≤ f)%nat ∧
               fields s !! g = Some gd ∧ f_kind gd = KRaw.
Proof.
  intros Hperm Hwf%reachable_wf f.
  induction (lt_wf f) as [f _ IH]. intros L HL x Hx.
  destruct (get_lineage_Ok_inv _ _ _ _ HL)
    as (fd & Hfd & [[Hk ->] | (e & X & Hk)]).
  - apply elem_of_singleton in Hx as ->. by exists f, fd.
  - rewrite (get_lineage_unfold set_order Hperm s f fd e X
               (wf_lineage _ Hwf) Hfd Hk) in HL.
    destruct (union_loop_Ok _ _ _ _ HL) as [_ Hmem].
    apply Hmem in Hx as [?%not_elem_of_empty | (v & r & Hv & Hcall & Hxr)];
      [done|].
    apply (in_set_order set_order Hperm) in Hv.
    destruct v as [y|t|g]; simpl in Hcall; [done| |].
    { by destruct (__getattr__ s t "get_lineage"). }
    pose proof (wf_lineage _ Hwf f fd e X g Hfd Hk Hv) as Hlt.
    destruct (IH g Hlt r Hcall x Hxr) as (g' & gd & -> & Hle & Hgd & Hraw).
    exists g', gd. repeat split; [lia | done..].
Qed.

Lemma lineage_ends_at_raw_fields_witness :
  ∃ g gd, VField 0 = VField g ∧ (g ≤ 2)%nat ∧
          fields closed_b !! g = Some gd ∧ f_kind gd = KRaw.
Proof.
  apply (lineage_ends_at_raw_fields elements closed_b elements_order
           (reachable_run _) 2 {[VField 0]} eq_refl (VField 0)).
  by apply elem_of_singleton.
Defined.

Lemma union_loop_singletons c l : ∀ acc,
  (∀ v, v ∈ l → c v = Ok {[v]}) →
  union_loop c l acc = Ok (acc ∪ list_to_set l).
Proof.
  induction l as [|v l IH]; intros acc H; simpl.
  - f_equal. by rewrite (right_id_L ∅ (∪)).
  - rewrite (H v) by left. cbn [mbind result_bind].
    rewrite IH by (intros w Hw; apply H; by right).
    f_equal. by rewrite (assoc_L (∪)).
Qed.

(** X8: a derived field all of whose direct sources are source fields
    has exactly its direct sources as lineage. *)
Theorem lineage_over_raw_sources (set_order : gset pyval → list pyval)
    s D fd e X :
  (∀ X, set_order X ≡ₚ elements X) →
  fields s !! D = Some fd →
  f_kind fd = KDerived e (Some X) →
  (∀ v, v ∈ X → ∃ g gd, v = VField g ∧ fields s !! g = Some gd ∧
                        f_kind gd = KRaw) →
  get_lineage set_order s D = Ok X.
Proof.
  intros Hperm HD Hk Hraw. unfold get_lineage.
  pose proof (lookup_lt_Some _ _ _ HD) as HltD.
  destruct (length (fields s)) as [|n] eqn:Hlen; [lia|].
  cbn [get_lineage_at]. unfold lookup_field at 1. rewrite HD.
  cbn [of_option mbind result_bind]. rewrite Hk.
  cbn [of_option mbind result_bind].
  rewrite union_loop_singletons.
  - f_equal. rewrite (left_id_L ∅ (∪)).
    rewrite (list_to_set_perm_L _ _ (Hperm X)). apply list_to_set_elements_L.
  - intros v Hv%(in_set_order set_order Hperm).
    destruct (Hraw v Hv) as (g & gd & -> & Hg & Hgk). simpl.
    pose proof (lookup_lt_Some _ _ _ Hg) as Hltg.
    assert (g ≠ D) by (intros ->; congruence).
    destruct n as [|n]; [lia|]. simpl. unfold lookup_field. rewrite Hg.
    cbn [of_option mbind result_bind]. by rewrite Hgk.
Qed.

Lemma lineage_over_raw_sources_witness :
  get_lineage backwards closed_b 2 = Ok {[VField 0]}.
Proof.
  apply (lineage_over_raw_sources backwards closed_b 2
           (mkField "id" "id" (Some 1)
              (KDerived (Some "{a.id}") (Some {[VField 0]})))
           (Some "{a.id}") {[VField 0]}).
  - intros X. unfold backwards. apply reverse_Permutation.
  - reflexivity.
  - reflexivity.
  - intros v Hv. apply elem_of_singleton in Hv as ->.
    exists 0, (mkField "id" "id" (Some 0) KRaw). by repeat split.
Defined.

(** ** Expressions with one placeholder *)

Lemma plain_text_items e :
  no_braces e = true →
  ∀ s kwargs, format_items s kwargs
                (if is_empty e then [] else [(e, None)]) None = Ok e.
Proof.
  intros _ s kwargs. destruct e as [|c e]; [done|].
  cbn [is_empty format_items mbind result_bind].
  by rewrite append_nil_l, append_empty_r.
Qed.

(** [str.format] on text without braces gives the text back. *)
Lemma format_plain_text s e kwargs :
  no_braces e = true → format s e kwargs = Ok e.
Proof.
  intros H. unfold format. rewrite parser_plain_text by done.
  by apply plain_text_items.
Qed.









(** ** Derived fields that are accepted half-way *)

Lemma collect_plain_text s ctx post acc :
  collect_fields s ctx (if is_empty post then [] else [(post, None)]) None acc
  = Ok acc.
Proof. by destruct (is_empty post). Qed.

(** X10: a raw table has no [_sources].  In its open scope a
    [DerivedField] with a new name is registered first, and then the
    constructor fails: [__getattr__] is asked for [_sources] and raises
    [UndefinedFieldException] (the table has no field of that name and
    the new field is not called so).  The field stays in the table. *)
Theorem derived_field_in_raw_table s t rest tb pname expression lname :
  CURRENT_TABLE_CONTEXT s = t :: rest →
  tables s !! t = Some tb → t_derived tb = None →
  dict_get pname (t_fields tb) = None →
  dict_get "_sources" (t_fields tb) = None → pname ≠ "_sources" →
  ∃ s', DerivedField pname expression lname s
        = (s', Raise (UndefinedFieldException t "_sources")) ∧
        __getitem__ s' t pname = Ok (VField (length (fields s))).
Proof.
  intros Hctx Ht Hraw Hfresh Hnone Hne.
  assert (Htlt : (t < length (tables s))%nat) by by eapply lookup_lt_Some.
  rewrite (DerivedField_registers _ _ _ _ _ _ _ Hctx Ht Hfresh).
  cbn beta zeta.
  set (tbls := <[t := registered tb pname (length (fields s))]> (tables s)).
  assert (Htbls : tbls !! t = Some (registered tb pname (length (fields s))))
    by by apply list_lookup_insert_eq.
  assert (Hsources : ∀ flds ctx,
    table_sources (mkState tbls flds ctx) t
    = Raise (UndefinedFieldException t "_sources")).
  { intros flds ctx.
    unfold table_sources, __getattr__, __getitem__, lookup_table.
    cbn [tables]. rewrite Htbls.
    cbn [of_option mbind result_bind registered t_derived t_fields].
    rewrite Hraw, dict_get_other, Hnone by done. reflexivity. }
  rewrite Hsources. cbn [mbind result_bind].
  eexists. split; [reflexivity|].
  apply (getitem_found _ t (registered tb pname (length (fields s))));
    [exact Htbls | by apply dict_get_registered].
Qed.

Lemma derived_field_in_raw_table_witness :
  ∃ s', DerivedField "twice" "2 * {a.id}" None reopened_a
        = (s', Raise (UndefinedFieldException 0 "_sources")) ∧
        __getitem__ s' 0 "twice" = Ok (VField 2).
Proof.
  apply (derived_field_in_raw_table reopened_a 0 []
           (mkTable "schema" "a" "a" "a" [("id", 0); ("vendor_id", 1)] None)
           "twice" "2 * {a.id}" None
           eq_refl eq_refl eq_refl eq_refl eq_refl).
  discriminate.
Defined.

(** X11: an empty placeholder.  [get_fields_from_expr] skips a field
    without a name, so in the open scope of a derived table an
    expression made of text, [{}] and text is accepted with no direct
    source at all; [get_expression] then hands the same text to
    [str.format], which asks for a positional argument and raises
    [IndexError]. *)
Theorem empty_placeholder s t rest tb d pname lname pre post :
  CURRENT_TABLE_CONTEXT s = t :: rest →
  tables s !! t = Some tb → t_derived tb = Some d →
  dict_get pname (t_fields tb) = None →
  no_braces pre = true → no_braces post = true →
  ∃ s', DerivedField pname (pre +:+ "{}" +:+ post) lname s
        = (s', Ok (length (fields s))) ∧
        get_sources s' (length (fields s)) = Ok ∅ ∧
        get_expression s' (length (fields s)) = Raise IndexError.
Proof.
  intros Hctx Ht Hd Hfresh Hpre Hpost.
  assert (Htlt : (t < length (tables s))%nat) by by eapply lookup_lt_Some.
  change (pre +:+ "{}" +:+ post)
    with (pre +:+ String "{" ("" +:+ String "}" post)).
  rewrite (DerivedField_registers _ _ _ _ _ _ _ Hctx Ht Hfresh).
  cbn beta zeta.
  set (tbls := <[t := registered tb pname (length (fields s))]> (tables s)).
  assert (Hsources : ∀ flds ctx,
    table_sources (mkState tbls flds ctx) t = Ok (CtxMapping (d_sources d))).
  { intros flds ctx.
    apply (table_sources_derived _ t
             (registered tb pname (length (fields s))) d); [|done].
    by apply list_lookup_insert_eq. }
  rewrite Hsources. cbn [mbind result_bind].
  unfold get_fields_from_expr at 1.
  rewrite parser_placeholder, parser_plain_text by done.
  unfold emit at 1. cbn [fst snd collect_fields rf_name is_empty].
  rewrite collect_plain_text.
  eexists. split; [reflexivity|]. split.
  - unfold get_sources, lookup_field. cbn [fields]. by rewrite lookup_last.
  - unfold get_expression, lookup_field. cbn [fields]. rewrite lookup_last.
    cbn [of_option mbind result_bind f_kind f_pname].
    rewrite (owner_sources_last _ _ _ _ t) by reflexivity.
    rewrite Hsources. cbn [mbind result_bind format_sources]. unfold format.
    rewrite parser_placeholder by done. unfold emit.
    destruct (formatter_parser post) as [items err].
    cbn [fst snd format_items rf_name]. reflexivity.
Qed.

Lemma empty_placeholder_witness :
  ∃ s', DerivedField "n" "count({})" None open_b = (s', Ok 2) ∧
        get_sources s' 2 = Ok ∅ ∧
        get_expression s' 2 = Raise IndexError.
Proof.
  exact (empty_placeholder open_b 1 []
           (mkTable "schema" "b" "b" "b" []
              (Some (mkDerived ∅ {["a" := 0]} "{a}")))
           (mkDerived ∅ {["a" := 0]} "{a}") "n" None "count(" ")"
           eq_refl eq_refl eq_refl eq_refl eq_refl eq_refl).
Defined.

(** ** [from_single] *)










(** ** [book_feature] and the helpers as operations *)

Lemma parse_feature_template :
  formatter_parser (cleandoc feature_doc)
  = ([("case" +:+ NL +:+ "    when (", Some (ReplField "flag_expr" "" None));
      (") and (", Some (ReplField "time_expr" "" None));
      (") then ", Some (ReplField "aggregator" "" None));
      ("(", Some (ReplField "metric_expr" "" None));
      (")" +:+ NL +:+ "    else null" +:+ NL +:+ "end", None)], None).
Proof. reflexivity. Qed.

(** X14: [book_feature] is [DerivedField] on the case expression with
    the four arguments written in as they are: a placeholder inside an
    argument is not touched by the template and is resolved by the field
    constructor. *)
Theorem book_feature_expression pname flag_expr time_expr metric_expr
    aggregator lname s :
  book_feature pname flag_expr time_expr metric_expr aggregator lname s
  = DerivedField pname
      ("case" +:+ NL +:+
       "    when (" +:+ flag_expr +:+ ") and (" +:+ time_expr +:+ ") then " +:+
       aggregator +:+ "(" +:+ metric_expr +:+ ")" +:+ NL +:+
       "    else null" +:+ NL +:+
       "end")
      lname s.
Proof.
  unfold book_feature, format. rewrite parse_feature_template.
  cbn [format_items rf_name rf_spec rf_conversion].
  rewrite (format_keyword _ _ "flag_expr" flag_expr); [|done..].
  rewrite (format_keyword _ _ "time_expr" time_expr); [|done..].
  rewrite (format_keyword _ _ "aggregator" aggregator); [|done..].
  rewrite (format_keyword _ _ "metric_expr" metric_expr); [|done..].
  reflexivity.
Qed.

(** X15: a state reached through [from_single] or [book_feature] from a
    reachable state is reachable by the constructors alone, so every
    invariant of the store holds after the helpers as well. *)
Theorem helpers_stay_reachable s :
  reachable s →
  (∀ e, reachable (from_single e s).1) ∧
  (∀ pname flag_expr time_expr metric_expr aggregator lname,
     reachable (book_feature pname flag_expr time_expr metric_expr
                  aggregator lname s).1).
Proof.
  intros Hs. split.
  - intros e. unfold from_single.
    destruct (CURRENT_TABLE_CONTEXT s) as [|t ctx]; [done|].
    destruct (_ ≫= _) as [field_list|]; [|done].
    destruct (elements field_list) as [|field [|]]; [done| |done].
    destruct (attr_pname s field) as [pname|];
      destruct (attr_lname s field) as [lname|]; try done.
    apply (reachable_exec s (NewDerivedField pname e (Some lname)) Hs).
  - intros pname flag_expr time_expr metric_expr aggregator lname.
    rewrite book_feature_expression.
    apply (reachable_exec s (NewDerivedField pname _ lname) Hs).
Qed.

Lemma helpers_stay_reachable_witness :
  reachable (from_single "cast({a.vendor_id} as int)" open_b).1.
Proof.
  exact (proj1 (helpers_stay_reachable open_b (reachable_run _))
           "cast({a.vendor_id} as int)").
Defined.

(** ** Descriptions *)

Lemma parse_describe_template :
  formatter_parser (cleandoc describe_doc)
  = ([("", Some (ReplField "lname" "" None));
      (NL +:+ NL +:+ "Schema: ", Some (ReplField "schema" "" None));
      (NL +:+ "Physical Name: ", Some (ReplField "pname" "" None));
      (NL +:+ NL +:+ "Fields:" +:+ NL +:+ "    ",
       Some (ReplField "fields" "" None))], None).
Proof. reflexivity. Qed.

Lemma describe_lines s (l : list (string * fref)) :
  (∀ n f, (n, f) ∈ l → ∃ fd, fields s !! f = Some fd ∧ f_pname fd = n) →
  ∃ lines,
    mapM (λ kf, d ← field_describe s kf.2; Ok ("- " +:+ d)) l = Ok lines ∧
    Forall2 (λ kf line, ∃ fd, fields s !! kf.2 = Some fd ∧
                              line = "- " +:+ kf.1 +:+ ": " +:+ f_lname fd)
      l lines.
Proof.
  induction l as [|[n f] l IH]; intros H.
  - exists []. by split; [|constructor].
  - destruct (H n f) as (fd & Hfd & Hn); [left|].
    destruct IH as (lines & Hlines & Hall).
    { intros n' f' Hin. apply H. by right. }
    exists (("- " +:+ n +:+ ": " +:+ f_lname fd) :: lines). split.
    + cbn [mapM]. rewrite Hlines. cbn [snd].
      unfold field_describe, lookup_field. rewrite Hfd.
      cbn [of_option mbind result_bind]. rewrite Hn. reflexivity.
    + constructor; [by exists fd | done].
Qed.

(** X16: in a reachable state [describe] never fails, on a raw or on a
    derived table: it prints the logical name, the schema, the physical
    name and one line [- pname: lname] for each registered field, in
    registration order. *)
Theorem describe_layout s t tb :
  reachable s → tables s !! t = Some tb →
  ∃ lines,
    Forall2 (λ kf line, ∃ fd, fields s !! kf.2 = Some fd ∧
                              line = "- " +:+ kf.1 +:+ ": " +:+ f_lname fd)
      (t_fields tb) lines ∧
    describe s t
    = Ok (t_lname tb +:+ NL +:+ NL +:+
          "Schema: " +:+ t_schema tb +:+ NL +:+
          "Physical Name: " +:+ t_pname tb +:+ NL +:+ NL +:+
          "Fields:" +:+ NL +:+
          "    " +:+ join (NL +:+ "    ") lines).
Proof.
  intros Hwf%reachable_wf Ht.
  destruct (describe_lines s (t_fields tb)) as (lines & Hlines & Hall).
  { intros n f Hin.
    destruct (wf_owned _ Hwf t tb n f Ht Hin) as (fd & Hfd & _ & Hn).
    by exists fd. }
  exists lines. split; [done|].
  unfold describe, lookup_table. rewrite Ht.
  cbn [of_option mbind result_bind]. rewrite Hlines.
  cbn [mbind result_bind]. unfold format. rewrite parse_describe_template.
  cbn [format_items rf_name rf_spec rf_conversion].
  rewrite (format_keyword _ _ "lname" (t_lname tb)); [|done..].
  rewrite (format_keyword _ _ "schema" (t_schema tb)); [|done..].
  rewrite (format_keyword _ _ "pname" (t_pname tb)); [|done..].
  rewrite (format_keyword _ _ "fields" (join (NL +:+ "    ") lines)); [|done..].
  cbn [mbind result_bind]. by rewrite append_empty_r.
Qed.

Lemma describe_layout_witness :
  ∃ lines,
    Forall2 (λ kf line, ∃ fd, fields closed_b !! kf.2 = Some fd ∧
                              line = "- " +:+ kf.1 +:+ ": " +:+ f_lname fd)
      [("id", 0); ("vendor_id", 1)] lines ∧
    describe closed_b 0
    = Ok ("a" +:+ NL +:+ NL +:+
          "Schema: " +:+ "schema" +:+ NL +:+
          "Physical Name: " +:+ "a" +:+ NL +:+ NL +:+
          "Fields:" +:+ NL +:+
          "    " +:+ join (NL +:+ "    ") lines).
Proof.
  exact (describe_layout closed_b 0
           (mkTable "schema" "a" "a" "a" [("id", 0); ("vendor_id", 1)] None)
           (reachable_run _) eq_refl).
Defined.

(** ** Grouping keys and the from clause *)

(** X17: on a derived table [groupby] accepts any keys without looking
    at them, and it replaces the grouping set: of two calls in a row
    only the second one counts; after [groupby] with no key the group-by
    clause is empty again. *)
Theorem groupby_replaces (set_order : gset pyval → list pyval) s t tb d keys :
  tables s !! t = Some tb → t_derived tb = Some d →
  (groupby t keys s).2 = Ok () ∧
  (∃ tb' d', tables (groupby t keys s).1 !! t = Some tb' ∧
             t_derived tb' = Some d' ∧ d_groupby d' = list_to_set keys) ∧
  (∀ keys', groupby t keys' (groupby t keys s).1 = groupby t keys' s) ∧
  get_groupby set_order (groupby t [] (groupby t keys s).1).1 t = Ok "".
Proof.
  intros Ht Hd.
  assert (Hlt : (t < length (tables s))%nat) by by eapply lookup_lt_Some.
  assert (Hcall : ∀ ks, groupby t ks s
    = (mkState (<[t := set_derived tb (mkDerived (list_to_set ks)
                          (d_sources d) (d_from_expression d))]> (tables s))
         (fields s) (CURRENT_TABLE_CONTEXT s), Ok ())).
  { intros ks. unfold groupby, derived_method, lookup_table. rewrite Ht.
    cbn [of_option mbind result_bind]. by rewrite Hd. }
  assert (Hagain : ∀ ks ks', groupby t ks' (groupby t ks s).1 = groupby t ks' s).
  { intros ks ks'. rewrite !Hcall. cbn [fst].
    unfold groupby, derived_method, lookup_table. cbn [tables].
    rewrite list_lookup_insert_eq by done.
    cbn [of_option mbind result_bind set_derived t_derived d_sources
         d_from_expression fields CURRENT_TABLE_CONTEXT
         t_schema t_pname t_lname t_alias t_fields].
    by rewrite list_insert_insert_eq. }
  split; [by rewrite Hcall|]. split; [|split; [by apply Hagain|]].
  - rewrite Hcall. cbn [fst tables]. eexists _, _.
    split; [by apply list_lookup_insert_eq | done].
  - rewrite Hagain, Hcall. cbn [fst].
    eapply get_groupby_empty.
    + cbn [tables]. by apply list_lookup_insert_eq.
    + reflexivity.
    + reflexivity.
Qed.

Lemma groupby_replaces_witness :
  (groupby 1 [VField 1; VStr "anything"] closed_b).2 = Ok () ∧
  groupby 1 [VField 0] (groupby 1 [VField 1; VStr "anything"] closed_b).1
  = groupby 1 [VField 0] closed_b.
Proof.
  destruct (groupby_replaces elements closed_b 1
              (mkTable "schema" "b" "b" "b" [("id", 2)]
                 (Some (mkDerived ∅ {["a" := 0]} "{a}")))
              (mkDerived ∅ {["a" := 0]} "{a}")
              [VField 1; VStr "anything"] eq_refl eq_refl)
    as (Hok & _ & Hagain & _).
  split; [exact Hok | apply Hagain].
Defined.





(** ** The select list and the whole statement *)

Lemma replace_app old new a b :
  replace old new (a +:+ b) = replace old new a +:+ replace old new b.
Proof.
  induction a as [|c a IH]; [done|]. rewrite append_cons.
  cbn [replace]. rewrite IH. destruct (Ascii.eqb c old); [|done].
  by rewrite append_assoc.
Qed.

Lemma replace_join old new sep l :
  replace old new (join sep l)
  = join (replace old new sep) (map (replace old new) l).
Proof.
  induction l as [|x l IH]; [done|].
  destruct l as [|y l]; [done|].
  change (join sep (x :: y :: l)) with (x +:+ sep +:+ join sep (y :: l)).
  rewrite !replace_app, IH. reflexivity.
Qed.

(** X19: [get_select] puts the expressions of the fields, in
    registration order, one after the other, separated by a comma and a
    line break; with an indent [k] every line after the first starts
    with [k] spaces, the continuation lines inside an expression
    included. *)
Theorem get_select_layout s t tb d k es :
  tables s !! t = Some tb → t_derived tb = Some d →
  mapM (λ kf, get_expression s kf.2) (t_fields tb) = Ok es →
  get_select s t k
  = Ok (join ("," +:+ NL +:+ spaces k)
          (map (replace nl (NL +:+ spaces k)) es)).
Proof.
  intros Ht Hd Hes. unfold get_select, derived_method, lookup_table.
  rewrite Ht. cbn [of_option mbind result_bind]. rewrite Hd.
  cbn [mbind result_bind]. rewrite Hes. cbn [mbind result_bind].
  rewrite replace_join.
  change (replace nl (NL +:+ spaces k) ("," +:+ NL))
    with ("," +:+ (NL +:+ spaces k) +:+ "").
  by rewrite append_empty_r.
Qed.

Lemma get_select_layout_witness :
  get_select closed_b 1 4
  = Ok (join ("," +:+ NL +:+ spaces 4)
          (map (replace nl (NL +:+ spaces 4)) ["a.id as id"])).
Proof.
  exact (get_select_layout closed_b 1
           (mkTable "schema" "b" "b" "b" [("id", 2)]
              (Some (mkDerived ∅ {["a" := 0]} "{a}")))
           (mkDerived ∅ {["a" := 0]} "{a}") 4 ["a.id as id"]
           eq_refl eq_refl eq_refl).
Defined.

(** X20: on a derived table [get_query] returns a statement exactly
    when the select list, the from clause and the group-by clause can
    all be produced, and the statement is then the five parts in their
    fixed places: [create table pname as], [select] and the list
    indented by four, [from] and the clause, an empty line, the
    group-by clause and the semicolon. *)
Theorem get_query_statement (set_order : gset pyval → list pyval) s t tb d q :
  tables s !! t = Some tb → t_derived tb = Some d →
  get_query set_order s t = Ok q ↔
  ∃ select_expr from_expr groupby_expr,
    get_select s t 4 = Ok select_expr ∧
    get_from s t = Ok from_expr ∧
    get_groupby set_order s t = Ok groupby_expr ∧
    q = "create table " +:+ t_pname tb +:+ " as" +:+ NL +:+
        "select" +:+ NL +:+
        "    " +:+ select_expr +:+ NL +:+
        "from" +:+ NL +:+
        "    " +:+ from_expr +:+ NL +:+
        "" +:+ NL +:+
        groupby_expr +:+ ";".
Proof.
  intros Ht Hd. split.
  - intros Hq.
    destruct (get_select s t 4) as [sel|] eqn:Hsel.
    2: { unfold get_query, derived_method, lookup_table in Hq.
         rewrite Ht in Hq. cbn [of_option mbind result_bind] in Hq.
         rewrite Hd in Hq. cbn [mbind result_bind] in Hq.
         by rewrite Hsel in Hq. }
    destruct (get_from s t) as [frm|] eqn:Hfrm.
    2: { unfold get_query, derived_method, lookup_table in Hq.
         rewrite Ht in Hq. cbn [of_option mbind result_bind] in Hq.
         rewrite Hd in Hq. cbn [mbind result_bind] in Hq.
         by rewrite Hsel, Hfrm in Hq. }
    destruct (get_groupby set_order s t) as [grp|] eqn:Hgrp.
    2: { unfold get_query, derived_method, lookup_table in Hq.
         rewrite Ht in Hq. cbn [of_option mbind result_bind] in Hq.
         rewrite Hd in Hq. cbn [mbind result_bind] in Hq.
         by rewrite Hsel, Hfrm, Hgrp in Hq. }
    rewrite (get_query_layout set_order s t tb d sel frm grp) in Hq by done.
    injection Hq as <-. by exists sel, frm, grp.
  - intros (sel & frm & grp & Hsel & Hfrm & Hgrp & ->).
    by apply (get_query_layout set_order s t tb d).
Qed.

Lemma get_query_statement_witness :
  ∃ select_expr from_expr groupby_expr,
    get_select closed_b 1 4 = Ok select_expr ∧
    get_from closed_b 1 = Ok from_expr ∧
    get_groupby elements closed_b 1 = Ok groupby_expr ∧
    "create table b as" +:+ NL +:+ "select" +:+ NL +:+ "    a.id as id" +:+ NL +:+
    "from" +:+ NL +:+ "    schema.a as a" +:+ NL +:+ NL +:+ ";"
    = "create table " +:+ "b" +:+ " as" +:+ NL +:+
      "select" +:+ NL +:+
      "    " +:+ select_expr +:+ NL +:+
      "from" +:+ NL +:+
      "    " +:+ from_expr +:+ NL +:+
      "" +:+ NL +:+
      groupby_expr +:+ ";".
Proof.
  exact (proj1 (get_query_statement elements closed_b 1
                  (mkTable "schema" "b" "b" "b" [("id", 2)]
                     (Some (mkDerived ∅ {["a" := 0]} "{a}")))
                  (mkDerived ∅ {["a" := 0]} "{a}") _ eq_refl eq_refl)
           eq_refl).
Defined.
